(** * hacker-news-ts: the item decoder, the presenter and the fetch pipeline

    A shallow embedding of [src/index.ts].  The program validates JSON
    received from the Hacker News API with io-ts validators, formats each
    item on one line and prints the result.

    Conventions of the embedding:
    - a JavaScript value is a [JsValue]; JSON numbers are integers ([Z]),
      no validator of the program looks inside a number;
    - a JavaScript string is a [string]; one character of the model stands
      for one UTF-16 code unit, which is what [length] and [slice] count;
    - a settled promise is a [Promise]; the order in which the concurrent
      item requests settle is an explicit schedule. *)

From Stdlib Require Import ZArith List String Ascii Bool Lia Permutation.
From Stdlib Require Import DecimalString DecimalZ DecimalPos.
From stdpp Require Import base option list strings.
Import ListNotations.

Local Open Scope string_scope.
Local Open Scope list_scope.
Local Set Warnings "-register-all".

(** ** JavaScript values *)

Module Js.

Inductive JsValue : Type :=
| JUndefined
| JNull
| JBoolean (b : bool)
| JNumber (n : Z)
| JString (s : string)
| JArray (xs : list JsValue)
| JObject (props : list (string * JsValue)).

(** The double quote and the newline. *)
Definition dquote : string := String (ascii_of_nat 34) EmptyString.
Definition newline : string := String (ascii_of_nat 10) EmptyString.

(** [o[k]] on a plain object: the first binding of [k], [undefined] when
    there is none. *)
Fixpoint lookupProp (props : list (string * JsValue)) (k : string) : JsValue :=
  match props with
  | [] => JUndefined
  | (k', v) :: rest => if String.eqb k k' then v else lookupProp rest k
  end.

Fixpoint hasProp (props : list (string * JsValue)) (k : string) : bool :=
  match props with
  | [] => false
  | (k', _) :: rest => if String.eqb k k' then true else hasProp rest k
  end.

(** [a[k] = v] on a plain object: overwrite in place, or add at the end. *)
Fixpoint setProp (props : list (string * JsValue)) (k : string) (v : JsValue)
  : list (string * JsValue) :=
  match props with
  | [] => [(k, v)]
  | (k', v') :: rest =>
      if String.eqb k k' then (k', v) :: rest else (k', v') :: setProp rest k v
  end.

(** Structural equality of values. *)
Fixpoint eqb (x y : JsValue) {struct x} : bool :=
  match x, y with
  | JUndefined, JUndefined => true
  | JNull, JNull => true
  | JBoolean a, JBoolean b => Bool.eqb a b
  | JNumber a, JNumber b => Z.eqb a b
  | JString a, JString b => String.eqb a b
  | JArray xs, JArray ys =>
      (fix go (xs ys : list JsValue) {struct xs} : bool :=
         match xs, ys with
         | [], [] => true
         | x :: xs', y :: ys' => eqb x y && go xs' ys'
         | _, _ => false
         end) xs ys
  | JObject ps, JObject qs =>
      (fix go (ps qs : list (string * JsValue)) {struct ps} : bool :=
         match ps, qs with
         | [], [] => true
         | (k, x) :: ps', (k', y) :: qs' => String.eqb k k' && eqb x y && go ps' qs'
         | _, _ => false
         end) ps qs
  | _, _ => false
  end.

(** Number to string, as in a template literal. *)
Definition numberToString (n : Z) : string :=
  NilZero.string_of_int (Z.to_int n).

Definition natToString (n : nat) : string :=
  NilZero.string_of_uint (Nat.to_uint n).

(** [Array.prototype.slice] and [String.prototype.slice] with integer
    arguments: a negative index counts from the end, both ends are
    clamped to the length. *)
Definition relativeIndex (len : nat) (i : Z) : nat :=
  if (i <? 0)%Z then Z.to_nat (Z.max (Z.of_nat len + i) 0)
  else Nat.min (Z.to_nat i) len.

Definition slice {A : Type} (l : list A) (start stop : Z) : list A :=
  let len := length l in
  let k := relativeIndex len start in
  let final := relativeIndex len stop in
  firstn (final - k) (skipn k l).

Definition sliceString (s : string) (start stop : Z) : string :=
  string_of_list_ascii (slice (list_ascii_of_string s) start stop).

(** [JSON.stringify] of a string: quotes, with the quote and the
    backslash escaped. *)
Fixpoint escape (s : string) : string :=
  match s with
  | EmptyString => EmptyString
  | String c rest =>
      if Ascii.eqb c (ascii_of_nat 34) then String (ascii_of_nat 92) (String c (escape rest))
      else if Ascii.eqb c (ascii_of_nat 92) then String c (String c (escape rest))
      else String c (escape rest)
  end.

Definition quoteString (s : string) : string := dquote +:+ escape s +:+ dquote.

(** [JSON.stringify] of a value.  Inside an array [undefined] prints as
    [null]; a property whose value is [undefined] is left out. *)
Fixpoint stringify (v : JsValue) : option string :=
  match v with
  | JUndefined => None
  | JNull => Some "null"
  | JBoolean true => Some "true"
  | JBoolean false => Some "false"
  | JNumber n => Some (numberToString n)
  | JString s => Some (quoteString s)
  | JArray xs =>
      Some ("[" +:+ String.concat ","
              (map (fun x => match stringify x with Some s => s | None => "null" end) xs)
            +:+ "]")
  | JObject ps =>
      Some ("{" +:+ String.concat ","
              ((fix go (ps : list (string * JsValue)) : list string :=
                  match ps with
                  | [] => []
                  | (k, x) :: ps' =>
                      match stringify x with
                      | Some s => (quoteString k +:+ ":" +:+ s) :: go ps'
                      | None => go ps'
                      end
                  end) ps)
            +:+ "}")
  end.

End Js.
Import Js.

(** ** The io-ts validators

    The program imports its combinators from io-ts, a dependency whose
    code is not among the sources.  The module below stands for the part of
    io-ts that [index.ts] calls.  It follows the decoder of section 4.1 of
    the specification and, where the specification is silent, the
    behaviour of io-ts 1.x: a validator is a named object with a type guard
    and a [validate] function from a value and a context to either a list
    of errors or a value; a plain object is the only dictionary. *)

Module t.

Record ContextEntry : Type := mkEntry { key : string; type_name : string }.

Definition Context : Type := list ContextEntry.

Record ValidationError : Type := mkValidationError { value : JsValue; context : Context }.

Definition Errors : Type := list ValidationError.

Inductive Either (L R : Type) : Type :=
| Left (l : L)
| Right (r : R).
Arguments Left {L R} l.
Arguments Right {L R} r.

Definition Validation : Type := Either Errors JsValue.

(** Modelled from the spec: the validator objects of io-ts, [t.Type].
    [is_] is the type guard [is].  [literalValue] is the [value] of a
    literal validator; [tagValue tag] is the literal that the validator
    requires of the property [tag], which the tagged union reads to build
    its index. *)
Record Type_ : Type := mkType {
  name : string;
  is_ : JsValue -> bool;
  validate : JsValue -> Context -> Validation;
  literalValue : option string;
  tagValue : string -> option string
}.

Definition failures (errors : Errors) : Validation := Left errors.

Definition failure (v : JsValue) (c : Context) : Validation :=
  failures [mkValidationError v c].

Definition success (v : JsValue) : Validation := Right v.

Definition getDefaultContext (type : Type_) : Context :=
  [mkEntry EmptyString (name type)].

Definition appendContext (c : Context) (k : string) (type : Type_) : Context :=
  c ++ [mkEntry k (name type)].

Definition decode (type : Type_) (input : JsValue) : Validation :=
  validate type input (getDefaultContext type).

(** Modelled from the spec: the basic validators of io-ts.  A validator
    given by a type guard accepts any value of its JSON type and returns
    it; otherwise it fails with one error, the value under the context. *)
Definition guarded (nm : string) (guard : JsValue -> bool) : Type_ :=
  mkType nm guard (fun u c => if guard u then success u else failure u c)
    None (fun _ => None).

Definition literal (v : string) : Type_ :=
  mkType (quoteString v)
    (fun u => Js.eqb u (JString v))
    (fun u c => if Js.eqb u (JString v) then success u else failure u c)
    (Some v) (fun _ => None).

Definition keyof (keys : list string) : Type_ :=
  guarded ("(keyof [" +:+ String.concat "," (map quoteString keys) +:+ "])")
    (fun u => match u with
              | JString s => existsb (String.eqb s) keys
              | _ => false
              end).

(** Modelled from the spec: [t.array] of io-ts.  Every element is
    validated under the context extended with its index; all the errors
    are collected. *)
Fixpoint validateItems (item : Type_) (c : Context) (i : nat) (xs : list JsValue)
  : list JsValue * Errors :=
  match xs with
  | [] => ([], [])
  | x :: rest =>
      let '(a, errors) := validateItems item c (S i) rest in
      match validate item x (appendContext c (natToString i) item) with
      | Left es => (x :: a, es ++ errors)
      | Right vok => (vok :: a, errors)
      end
  end.

Definition array (item : Type_) : Type_ :=
  mkType ("Array<" +:+ name item +:+ ">")
    (fun u => match u with
              | JArray xs => forallb (is_ item) xs
              | _ => false
              end)
    (fun u c =>
       match u with
       | JArray xs =>
           let '(a, errors) := validateItems item c 0 xs in
           match errors with
           | [] => success (JArray a)
           | _ => failures errors
           end
       | _ => failure u c
       end)
    None (fun _ => None).

(** Modelled from the spec: [t.type] of io-ts.  Every declared property is
    validated on [o[k]], so that a required property fails when its key is
    missing; the failures of all the properties are collected; a property
    that is not declared is not looked at.  The state of the loop is the
    result object [a], which starts as the input and is the input narrowed
    to the static type when no validator changed a value, and the errors
    so far. *)
Definition validateProp (o : list (string * JsValue)) (c : Context)
    (st : list (string * JsValue) * Errors) (p : string * Type_)
  : list (string * JsValue) * Errors :=
  let '(a, errors) := st in
  let '(k, type) := p in
  let ok := lookupProp o k in
  match validate type ok (appendContext c k type) with
  | Left es => (a, errors ++ es)
  | Right vok => (if Js.eqb vok ok then a else setProp a k vok, errors)
  end.

Definition getInterfaceTypeName (props : list (string * Type_)) : string :=
  "{ " +:+ String.concat ", " (map (fun p => fst p +:+ ": " +:+ name (snd p)) props) +:+ " }".

Fixpoint propOf (props : list (string * Type_)) (k : string) : option Type_ :=
  match props with
  | [] => None
  | (k', type) :: rest => if String.eqb k k' then Some type else propOf rest k
  end.

Definition type (props : list (string * Type_)) (nm : option string) : Type_ :=
  mkType (match nm with Some n => n | None => getInterfaceTypeName props end)
    (fun u => match u with
              | JObject o => forallb (fun p => is_ (snd p) (lookupProp o (fst p))) props
              | _ => false
              end)
    (fun u c =>
       match u with
       | JObject o =>
           let '(a, errors) := fold_left (validateProp o c) props (o, []) in
           match errors with
           | [] => success (JObject a)
           | _ => failures errors
           end
       | _ => failure u c
       end)
    None
    (fun tag => match propOf props tag with
                | Some type => literalValue type
                | None => None
                end).

(** Modelled from the spec: [t.union] of io-ts, on which the optional
    combinator is built.  The members are tried in order under the context
    extended with their index; the first success is returned, and when
    every member fails the errors of all of them are. *)
Fixpoint validateUnion (types : list Type_) (i : nat) (u : JsValue) (c : Context)
    (errors : Errors) : Validation :=
  match types with
  | [] => failures errors
  | type :: rest =>
      match validate type u (appendContext c (natToString i) type) with
      | Right v => Right v
      | Left es => validateUnion rest (S i) u c (errors ++ es)
      end
  end.

Definition union (types : list Type_) (nm : string) : Type_ :=
  mkType nm
    (fun u => existsb (fun type => is_ type u) types)
    (fun u c => validateUnion types 0 u c [])
    None
    (fun tag => match types with
                | type :: _ => tagValue type tag
                | [] => None
                end).

(** Modelled from the spec: [t.intersection] of io-ts, the composite of
    the shared and the variant-specific properties.  Every member validates
    the value the previous ones produced, under the same context; all the
    errors are collected. *)
Fixpoint validateIntersection (types : list Type_) (a : JsValue) (c : Context)
    (errors : Errors) : Validation :=
  match types with
  | [] => match errors with
          | [] => success a
          | _ => failures errors
          end
  | type :: rest =>
      match validate type a c with
      | Left es => validateIntersection rest a c (errors ++ es)
      | Right v => validateIntersection rest v c errors
      end
  end.

Fixpoint findTagValue (tag : string) (types : list Type_) : option string :=
  match types with
  | [] => None
  | type :: rest =>
      match tagValue type tag with
      | Some v => Some v
      | None => findTagValue tag rest
      end
  end.

Definition intersection (types : list Type_) (nm : string) : Type_ :=
  mkType nm
    (fun u => forallb (fun type => is_ type u) types)
    (fun u c => validateIntersection types u c [])
    None
    (fun tag => findTagValue tag types).

(** Modelled from the spec: [t.taggedUnion] of io-ts, the tagged-union
    decoding of section 4.1.  The tag is read from the input object and
    validated against the accepted literals under the context extended
    with the tag; on failure that single error is returned and no member
    is tried; on success exactly the member of that tag validates the
    object, under the context extended with its index.  [tagValue2Index]
    is the index from tag values to members: a later member with the same
    tag value takes the entry. *)
Fixpoint tagValue2Index (tag : string) (types : list Type_) (i : nat) (v : string)
  : option (nat * Type_) :=
  match types with
  | [] => None
  | type :: rest =>
      match tagValue2Index tag rest (S i) v with
      | Some r => Some r
      | None =>
          match tagValue type tag with
          | Some v' => if String.eqb v v' then Some (i, type) else None
          | None => None
          end
      end
  end.

(** The accepted tag values, in the order of the members. *)
Fixpoint tagValues (tag : string) (types : list Type_) (seen : list string) : list string :=
  match types with
  | [] => []
  | type :: rest =>
      match tagValue type tag with
      | Some v =>
          if existsb (String.eqb v) seen then tagValues tag rest seen
          else v :: tagValues tag rest (v :: seen)
      | None => tagValues tag rest seen
      end
  end.

(** Modelled from the spec: the validator of a tagged union, as described
    above [tagValue2Index]. *)
Definition taggedUnion (tag : string) (types : list Type_) (nm : string) : Type_ :=
  let TagValue := keyof (tagValues tag types []) in
  mkType nm
    (fun u =>
       match u with
       | JObject d =>
           match lookupProp d tag with
           | JString v =>
               is_ TagValue (JString v) &&
               match tagValue2Index tag types 0 v with
               | Some (_, type) => is_ type u
               | None => false
               end
           | _ => false
           end
       | _ => false
       end)
    (fun u c =>
       match u with
       | JObject d =>
           match validate TagValue (lookupProp d tag) (appendContext c tag TagValue) with
           | Left errors => Left errors
           | Right tagValueValidation =>
               match tagValueValidation with
               | JString v =>
                   match tagValue2Index tag types 0 v with
                   | Some (i, type) => validate type u (appendContext c (natToString i) type)
                   | None => failure u c
                   end
               | _ => failure u c
               end
           end
       | _ => failure u c
       end)
    None (fun _ => None).

(** The basic validators: any value of the JSON type. *)
Definition string : Type_ :=
  guarded "string" (fun u => match u with JString _ => true | _ => false end).

Definition number : Type_ :=
  guarded "number" (fun u => match u with JNumber _ => true | _ => false end).

Definition boolean : Type_ :=
  guarded "boolean" (fun u => match u with JBoolean _ => true | _ => false end).

Definition undefined : Type_ :=
  guarded "undefined" (fun u => match u with JUndefined => true | _ => false end).

End t.

(** ** The reporter of io-ts-reporters

    The reporter is a dependency too.  It prints one line per error. *)

Module Reporter.

Definition jsToString (v : JsValue) : string :=
  match stringify v with
  | Some s => s
  | None => "undefined"
  end.

Definition isEmptyString (s : string) : bool :=
  match s with
  | EmptyString => true
  | _ => false
  end.

Definition pathOf (c : t.Context) : string :=
  String.concat "." (filter (fun k => negb (isEmptyString k)) (map t.key c)).

(** Modelled from the spec: the line of one field-level failure.  It names
    the expected type, which is the name of the last entry of the context,
    the path of the failing field, made of the keys of the context, and
    what was found there, printed with [JSON.stringify]. *)
Definition formatValidationError (e : t.ValidationError) : option string :=
  match last (t.context e) with
  | Some errorContext =>
      let expectedType := t.type_name errorContext in
      let path := pathOf (t.context e) in
      Some ("Expecting " +:+ expectedType
            +:+ (if isEmptyString path then EmptyString else " at " +:+ path)
            +:+ " but instead got: " +:+ jsToString (t.value e) +:+ ".")
  | None => None
  end.

Definition reporter (validation : t.Validation) : list string :=
  match validation with
  | t.Left errors => omap formatValidationError errors
  | t.Right _ => []
  end.

End Reporter.

(** ** Promises

    A promise is observed once it has settled; [Pending] is a promise that
    never settles.  [await] is the bind of the monad. *)

Record Error : Type := mkError { message : string }.

Inductive Promise (A : Type) : Type :=
| Fulfilled (a : A)
| Rejected (e : Error)
| Pending.
Arguments Fulfilled {A} a.
Arguments Rejected {A} e.
Arguments Pending {A}.

#[global] Instance Promise_ret : MRet Promise := fun A a => Fulfilled a.

#[global] Instance Promise_bind : MBind Promise := fun A B k p =>
  match p with
  | Fulfilled a => k a
  | Rejected e => Rejected e
  | Pending => Pending
  end.

(** [Promise.all].  The input promises settle one at a time, in the order
    [sched] lists their indices.  A fulfilment stores the value at its
    index and counts down; the last one resolves the result with the array
    of values.  The first rejection rejects the result.  Once the result
    has settled it does not change. *)
Record AllState (A : Type) : Type := mkAllState {
  values : list (option A);
  remainingElementsCount : nat;
  settled : option (Promise (list A))
}.
Arguments mkAllState {A}.
Arguments values {A}.
Arguments remainingElementsCount {A}.
Arguments settled {A}.

Definition settleOnce {A : Type} (current : option (Promise (list A)))
    (outcome : Promise (list A)) : option (Promise (list A)) :=
  match current with
  | Some r => Some r
  | None => Some outcome
  end.

Definition settleElement {A : Type} (promises : list (Promise A)) (st : AllState A)
    (index : nat) : AllState A :=
  match promises !! index with
  | Some (Fulfilled x) =>
      let values' := <[index := Some x]> (values st) in
      let remaining' := remainingElementsCount st - 1 in
      mkAllState values' remaining'
        (if Nat.eqb remaining' 0
         then settleOnce (settled st) (Fulfilled (omap id values'))
         else settled st)
  | Some (Rejected e) =>
      mkAllState (values st) (remainingElementsCount st)
        (settleOnce (settled st) (Rejected e))
  | Some Pending | None => st
  end.

Definition Promise_all {A : Type} (sched : list nat) (promises : list (Promise A))
  : Promise (list A) :=
  let n := length promises in
  let init := mkAllState (replicate n None) n
                (if Nat.eqb n 0 then Some (Fulfilled []) else None) in
  match settled (fold_left (settleElement promises) sched init) with
  | Some r => r
  | None => Pending
  end.

(** ** The network: [fetch] and [Response.json] *)

Record Response : Type := mkResponse { json : Promise JsValue }.

Definition Fetch : Type := string -> Promise Response.

(** ** types and validators *)

Definition optional (type : t.Type_) (name : option string) : t.Type_ :=
  t.union [type; t.undefined]
    (match name with
     | Some n => n
     | None => "?" +:+ t.name type
     end).

Definition ID_V : t.Type_ := t.number.

(** The object literals given to [t.type] are named, so that the theorems
    can refer to the declared properties. *)
Definition ItemCommonProps : list (string * t.Type_) :=
  [ ("by", t.string);
    ("id", ID_V);
    ("time", t.number);
    ("dead", optional t.boolean None);
    ("deleted", optional t.boolean None);
    ("kids", optional (t.array ID_V) None) ].

Definition ItemCommonV : t.Type_ := t.type ItemCommonProps (Some "ItemCommon").

Definition TopLevelProps : list (string * t.Type_) :=
  [ ("score", t.number);
    ("title", t.string) ].

Definition TopLevelV : t.Type_ := t.type TopLevelProps (Some "TopLevel").

Definition StoryProps : list (string * t.Type_) :=
  [ ("type", t.literal "story");
    ("descendants", t.number);
    ("text", optional t.string None);
    ("url", optional t.string None) ].

Definition StoryV : t.Type_ :=
  t.intersection
    [ t.type StoryProps None;
      ItemCommonV;
      TopLevelV ]
    "Story".

Definition JobProps : list (string * t.Type_) :=
  [ ("type", t.literal "job");
    ("text", optional t.string None);
    ("url", optional t.string None) ].

Definition JobV : t.Type_ :=
  t.intersection
    [ t.type JobProps None;
      ItemCommonV;
      TopLevelV ]
    "Job".

Definition PollProps : list (string * t.Type_) :=
  [ ("type", t.literal "poll");
    ("descendants", t.number);
    ("parts", t.array ID_V) ].

Definition PollV : t.Type_ :=
  t.intersection
    [ t.type PollProps None;
      ItemCommonV;
      TopLevelV ]
    "Poll".

Definition CommentProps : list (string * t.Type_) :=
  [ ("type", t.literal "comment");
    ("parent", ID_V);
    ("text", t.string) ].

Definition CommentV : t.Type_ :=
  t.intersection
    [ t.type CommentProps None;
      ItemCommonV ]
    "Comment".

Definition PollOptProps : list (string * t.Type_) :=
  [ ("type", t.literal "pollopt");
    ("poll", ID_V);
    ("score", t.number);
    ("text", t.string) ].

Definition PollOptV : t.Type_ :=
  t.intersection
    [ t.type PollOptProps None ]
    "PollOpt".

Definition ItemV : t.Type_ :=
  t.taggedUnion "type" [CommentV; JobV; PollV; PollOptV; StoryV] "Item".

(** ** The static types of the validators

    [t.TypeOf] of each validator, as a record, and the view of a
    JavaScript value at that type.  TypeScript erases the types: the view
    only reads the value the decoder returned. *)

Record ItemCommon : Type := mkItemCommon {
  by_ : string;
  id_ : Z;
  time : Z;
  dead : option bool;
  deleted : option bool;
  kids : option (list Z)
}.

Record TopLevel : Type := mkTopLevel {
  score : Z;
  title : string
}.

Record Story : Type := mkStory {
  story_descendants : Z;
  story_text : option string;
  story_url : option string;
  story_common : ItemCommon;
  story_top : TopLevel
}.

Record Job : Type := mkJob {
  job_text : option string;
  job_url : option string;
  job_common : ItemCommon;
  job_top : TopLevel
}.

Record Poll : Type := mkPoll {
  poll_descendants : Z;
  parts : list Z;
  poll_common : ItemCommon;
  poll_top : TopLevel
}.

Record Comment : Type := mkComment {
  parent : Z;
  comment_text : string;
  comment_common : ItemCommon
}.

Record PollOpt : Type := mkPollOpt {
  poll : Z;
  pollopt_score : Z;
  pollopt_text : string
}.

Inductive Item : Type :=
| ItemComment (item : Comment)
| ItemJob (item : Job)
| ItemPoll (item : Poll)
| ItemPollOpt (item : PollOpt)
| ItemStory (item : Story).

Definition getProp (v : JsValue) (k : string) : JsValue :=
  match v with
  | JObject o => lookupProp o k
  | _ => JUndefined
  end.

Definition asString (v : JsValue) : option string :=
  match v with
  | JString s => Some s
  | _ => None
  end.

Definition asNumber (v : JsValue) : option Z :=
  match v with
  | JNumber n => Some n
  | _ => None
  end.

Definition asBoolean (v : JsValue) : option bool :=
  match v with
  | JBoolean b => Some b
  | _ => None
  end.

Definition asLiteral (s : string) (v : JsValue) : option unit :=
  if Js.eqb v (JString s) then Some tt else None.

Definition asArray {A : Type} (f : JsValue -> option A) (v : JsValue) : option (list A) :=
  match v with
  | JArray xs => mapM f xs
  | _ => None
  end.

(** [T | undefined] *)
Definition asOptional {A : Type} (f : JsValue -> option A) (v : JsValue)
  : option (option A) :=
  match v with
  | JUndefined => Some None
  | _ => Some <$> f v
  end.

Definition asItemCommon (v : JsValue) : option ItemCommon :=
  b ← asString (getProp v "by");
  i ← asNumber (getProp v "id");
  tm ← asNumber (getProp v "time");
  dd ← asOptional asBoolean (getProp v "dead");
  dl ← asOptional asBoolean (getProp v "deleted");
  ks ← asOptional (asArray asNumber) (getProp v "kids");
  Some (mkItemCommon b i tm dd dl ks).

Definition asTopLevel (v : JsValue) : option TopLevel :=
  s ← asNumber (getProp v "score");
  tl ← asString (getProp v "title");
  Some (mkTopLevel s tl).

Definition asStory (v : JsValue) : option Story :=
  _ ← asLiteral "story" (getProp v "type");
  d ← asNumber (getProp v "descendants");
  tx ← asOptional asString (getProp v "text");
  u ← asOptional asString (getProp v "url");
  c ← asItemCommon v;
  tp ← asTopLevel v;
  Some (mkStory d tx u c tp).

Definition asJob (v : JsValue) : option Job :=
  _ ← asLiteral "job" (getProp v "type");
  tx ← asOptional asString (getProp v "text");
  u ← asOptional asString (getProp v "url");
  c ← asItemCommon v;
  tp ← asTopLevel v;
  Some (mkJob tx u c tp).

Definition asPoll (v : JsValue) : option Poll :=
  _ ← asLiteral "poll" (getProp v "type");
  d ← asNumber (getProp v "descendants");
  ps ← asArray asNumber (getProp v "parts");
  c ← asItemCommon v;
  tp ← asTopLevel v;
  Some (mkPoll d ps c tp).

Definition asComment (v : JsValue) : option Comment :=
  _ ← asLiteral "comment" (getProp v "type");
  p ← asNumber (getProp v "parent");
  tx ← asString (getProp v "text");
  c ← asItemCommon v;
  Some (mkComment p tx c).

Definition asPollOpt (v : JsValue) : option PollOpt :=
  _ ← asLiteral "pollopt" (getProp v "type");
  p ← asNumber (getProp v "poll");
  s ← asNumber (getProp v "score");
  tx ← asString (getProp v "text");
  Some (mkPollOpt p s tx).

Definition asItem (v : JsValue) : option Item :=
  match getProp v "type" with
  | JString tag =>
      if String.eqb tag "comment" then ItemComment <$> asComment v
      else if String.eqb tag "job" then ItemJob <$> asJob v
      else if String.eqb tag "poll" then ItemPoll <$> asPoll v
      else if String.eqb tag "pollopt" then ItemPollOpt <$> asPollOpt v
      else if String.eqb tag "story" then ItemStory <$> asStory v
      else None
  | _ => None
  end.

(** ** utility functions *)

(** The decoder returns the validated value at the static type of the
    validator.  The types are erased at run time; in the embedding
    [typeOf] is the view at that type.  Its failure branch is not taken for
    the validators of the program ([asItem_decoded], [asIDs_decoded]). *)
Definition decodeToPromise {T : Type} (validator : t.Type_)
    (typeOf : JsValue -> option T) (input : JsValue) : Promise T :=
  let result := t.decode validator input in
  match result with
  | t.Left errors =>
      let messages := Reporter.reporter result in
      Rejected (mkError (String.concat newline messages))
  | t.Right value =>
      match typeOf value with
      | Some v => Fulfilled v
      | None => Rejected (mkError "value outside the static type")
      end
  end.

(** ** functions to fetch and display stories and other items *)

Definition itemUrl (id : Z) : string :=
  "https://hacker-news.firebaseio.com/v0/item/" +:+ numberToString id +:+ ".json".

Definition topStoriesUrl : string :=
  "https://hacker-news.firebaseio.com/v0/topstories.json".

Definition fetchItem (fetch : Fetch) (id : Z) : Promise Item :=
  res ← fetch (itemUrl id);
  obj ← json res;
  decodeToPromise ItemV asItem obj.

Definition excerptOf (text : string) : string :=
  if Nat.ltb 60 (String.length text) then sliceString text 0 60 +:+ "..." else text.

Definition formatItem (item : Item) : string :=
  match item with
  | ItemStory item =>
      dquote +:+ title (story_top item) +:+ dquote +:+ " submitted by "
        +:+ by_ (story_common item)
  | ItemJob item =>
      "job posting: " +:+ title (job_top item)
  | ItemPoll item =>
      let numOpts := length (parts item) in
      "poll: " +:+ dquote +:+ title (poll_top item) +:+ dquote
        +:+ " - choose one of " +:+ natToString numOpts +:+ " options"
  | ItemPollOpt item =>
      "poll option: " +:+ pollopt_text item
  | ItemComment item =>
      let excerpt := excerptOf (comment_text item) in
      by_ (comment_common item) +:+ " commented: " +:+ excerpt
  end.

(** The item requests settle in the order [sched] gives. *)
Definition fetchTopStories (fetch : Fetch) (sched : list nat) (count : Z)
  : Promise (list Item) :=
  res ← fetch topStoriesUrl;
  body ← json res;
  ids ← decodeToPromise (t.array ID_V) (asArray asNumber) body;
  Promise_all sched (map (fun id => fetchItem fetch id) (slice ids 0 count)).

(** ** a very basic client *)

Record Console : Type := mkConsole {
  stdout : list string;
  stderr : list string
}.

(** [main] returns what it wrote to the console, one entry per call of
    [console.log] or [console.error], and its own promise. *)
Definition main (fetch : Fetch) (sched : list nat) : Console * Promise unit :=
  match fetchTopStories fetch sched 15 with
  | Fulfilled stories =>
      (mkConsole (map (fun story => formatItem story +:+ newline) stories) [],
       Fulfilled tt)
  | Rejected err =>
      (mkConsole [] [message err], Fulfilled tt)
  | Pending => (mkConsole [] [], Pending)
  end.

(** The process runs [main ()] and does nothing else: it never assigns
    [process.exitCode] and never calls [process.exit].  When the promise of
    [main] is fulfilled the process ends with code 0; a rejection that
    nobody handles ends it with code 1; while the promise is pending the
    process has not ended. *)
Definition exitCode (fetch : Fetch) (sched : list nat) : option Z :=
  match snd (main fetch sched) with
  | Fulfilled _ => Some 0%Z
  | Rejected _ => Some 1%Z
  | Pending => None
  end.

(** ** Notions used by the statements *)

(** A validator is sound when it returns its input exactly where its type
    guard holds, and a non-empty list of errors elsewhere. *)
Definition Sound (type : t.Type_) : Prop :=
  forall u c,
    match t.validate type u c with
    | t.Right v => v = u /\ t.is_ type u = true
    | t.Left es => es <> [] /\ t.is_ type u = false
    end.

Definition errorsOf (v : t.Validation) : t.Errors :=
  match v with
  | t.Left es => es
  | t.Right _ => []
  end.

(** The errors of one declared property of the object [o], validated on
    its own under the context [c] of the object. *)
Definition propErrors (o : list (string * JsValue)) (c : t.Context)
    (p : string * t.Type_) : t.Errors :=
  errorsOf (t.validate (snd p) (lookupProp o (fst p)) (t.appendContext c (fst p) (snd p))).

(** Whether a value has a view at a static type. *)
Definition hasView {A : Type} (view : option A) : bool :=
  match view with
  | Some _ => true
  | None => false
  end.

(** The output table of the specification, read off the decoded JSON:
    one literal format per tag.  [specExcerpt] is the excerpt rule in the
    words of the specification. *)
Definition specExcerpt (text : string) : string :=
  if Nat.leb (String.length text) 60 then text
  else substring 0 60 text +:+ "...".

Definition specFormat (v : JsValue) : option string :=
  match getProp v "type" with
  | JString tag =>
      if String.eqb tag "story" then
        match getProp v "title", getProp v "by" with
        | JString title, JString author =>
            Some (dquote +:+ title +:+ dquote +:+ " submitted by " +:+ author)
        | _, _ => None
        end
      else if String.eqb tag "job" then
        match getProp v "title" with
        | JString title => Some ("job posting: " +:+ title)
        | _ => None
        end
      else if String.eqb tag "poll" then
        match getProp v "title", getProp v "parts" with
        | JString title, JArray options =>
            Some ("poll: " +:+ dquote +:+ title +:+ dquote +:+ " - choose one of "
                  +:+ natToString (length options) +:+ " options")
        | _, _ => None
        end
      else if String.eqb tag "pollopt" then
        match getProp v "text" with
        | JString text => Some ("poll option: " +:+ text)
        | _ => None
        end
      else if String.eqb tag "comment" then
        match getProp v "by", getProp v "text" with
        | JString author, JString text =>
            Some (author +:+ " commented: " +:+ specExcerpt text)
        | _, _ => None
        end
      else None
  | _ => None
  end.

(** ** Concrete inputs *)

Definition exampleStoryProps : list (string * JsValue) :=
  [ ("by", JString "pg"); ("descendants", JNumber 3); ("id", JNumber 1);
    ("kids", JArray [JNumber 2; JNumber 3]); ("score", JNumber 10);
    ("time", JNumber 1160418111); ("title", JString "Hello");
    ("type", JString "story"); ("url", JString "http://example.com/") ].

Definition exampleStory : JsValue := JObject exampleStoryProps.

Definition exampleComment : JsValue :=
  JObject [ ("by", JString "norvig"); ("id", JNumber 2); ("parent", JNumber 1);
            ("text", JString "Nice."); ("time", JNumber 1160418200);
            ("type", JString "comment") ].

(** A story whose author and title are the empty string. *)
Definition anonymousStory : JsValue :=
  JObject [ ("by", JString EmptyString); ("descendants", JNumber 0); ("id", JNumber 1);
            ("score", JNumber 1); ("time", JNumber 0); ("title", JString EmptyString);
            ("type", JString "story") ].

(** An object with a property that no validator declares. *)
Definition storyWithKarma : JsValue :=
  JObject [ ("by", JString "pg"); ("descendants", JNumber 3); ("id", JNumber 1);
            ("karma", JNumber 7); ("score", JNumber 10); ("time", JNumber 1160418111);
            ("title", JString "Hello"); ("type", JString "story") ].

(** The properties that the validator of a tag declares: those of its own
    object and of the objects it is intersected with, in the order of the
    intersection. *)
Definition declaredProps (tag : string) : list (string * t.Type_) :=
  if String.eqb tag "comment" then CommentProps ++ ItemCommonProps
  else if String.eqb tag "job" then JobProps ++ ItemCommonProps ++ TopLevelProps
  else if String.eqb tag "poll" then PollProps ++ ItemCommonProps ++ TopLevelProps
  else if String.eqb tag "pollopt" then PollOptProps
  else if String.eqb tag "story" then StoryProps ++ ItemCommonProps ++ TopLevelProps
  else [].

(** The tag values the tagged union accepts, and the validator it builds
    for the tag. *)
Definition ItemTags : list string :=
  t.tagValues "type" [CommentV; JobV; PollV; PollOptV; StoryV] [].

Definition ItemTagV : t.Type_ := t.keyof ItemTags.

(** Every error of a validator carries the context it was called with,
    extended with the path to the failing value. *)
Definition Located (type : t.Type_) : Prop :=
  forall u c es,
    t.validate type u c = t.Left es ->
    Forall (fun e => exists rest, t.context e = c ++ rest) es.

(** A story with three faults: [by] is a number, [dead] is [null] and
    [title] is missing. *)
Definition brokenStory : JsValue :=
  JObject [ ("by", JNumber 3); ("dead", JNull); ("descendants", JNumber 0);
            ("id", JNumber 1); ("score", JNumber 10); ("time", JNumber 100);
            ("type", JString "story") ].

(** A network that answers the three requests of a two-item front page,
    and one that rejects every request. *)
Definition exampleNetwork : Fetch := fun url =>
  if String.eqb url topStoriesUrl
  then Fulfilled (mkResponse (Fulfilled (JArray [JNumber 1; JNumber 2])))
  else if String.eqb url (itemUrl 1)
  then Fulfilled (mkResponse (Fulfilled exampleStory))
  else if String.eqb url (itemUrl 2)
  then Fulfilled (mkResponse (Fulfilled exampleComment))
  else Rejected (mkError "not found").

Definition offline : Fetch := fun _ => Rejected (mkError "network down").

(** ** The other functions of [index.ts] *)

(** [delete o[k]] on a plain object. *)
Fixpoint deleteProp (props : list (string * JsValue)) (k : string)
  : list (string * JsValue) :=
  match props with
  | [] => []
  | (k', v) :: rest =>
      if String.eqb k k' then deleteProp rest k else (k', v) :: deleteProp rest k
  end.

Definition fetchItemType {T : Type} (fetch : Fetch) (validator : t.Type_)
    (typeOf : JsValue -> option T) (id : Z) : Promise T :=
  res ← fetch (itemUrl id);
  obj ← json res;
  decodeToPromise validator typeOf obj.

(** [string | undefined]: [None] is [undefined], the value of a function
    that ends without [return]. *)
Definition getTitle (item : Item) : option string :=
  match item with
  | ItemStory item => Some (title (story_top item))
  | _ => None
  end.

Definition formatStory (story : Story) : string :=
  dquote +:+ title (story_top story) +:+ dquote +:+ " submitted by "
    +:+ by_ (story_common story).

Definition getTitleCowboyStyle (item : Item) : option string :=
  match item with
  | ItemStory item => Some (title (story_top item))
  | ItemJob item => Some (title (job_top item))
  | ItemPoll item => Some (title (poll_top item))
  | _ => None
  end.

Definition fetchTitle (fetch : Fetch) (storyId : Z) : Promise string :=
  res ← fetch (itemUrl storyId);
  data ← json res;
  story ← decodeToPromise StoryV asStory data;
  mret (title (story_top story)).

(** The validator of each tag of the union. *)
Definition variants : list (string * t.Type_) :=
  [ ("comment", CommentV); ("job", JobV); ("poll", PollV);
    ("pollopt", PollOptV); ("story", StoryV) ].

(** Whether the promise at an index of a batch is fulfilled. *)
Definition isFulfilled {A : Type} (promises : list (Promise A)) (i : nat) : bool :=
  match promises !! i with
  | Some (Fulfilled _) => true
  | _ => false
  end.

(** A network that answers [null] to every request, and one on which the
    request of the second item never settles. *)
Definition nullNetwork : Fetch := fun _ => Fulfilled (mkResponse (Fulfilled JNull)).

Definition stalledNetwork : Fetch := fun url =>
  if String.eqb url (itemUrl 2) then Pending else exampleNetwork url.

(** * Properties *)

(** ** JavaScript values *)

Lemma eqb_refl : forall x, Js.eqb x x = true.
Proof.
  fix IH 1. intros [ | | b | n | s | xs | ps]; simpl; try reflexivity.
  - apply Bool.eqb_reflx.
  - apply Z.eqb_refl.
  - apply String.eqb_refl.
  - induction xs as [|x xs IHxs]; [reflexivity|].
    rewrite IH, IHxs. reflexivity.
  - induction ps as [|[k x] ps IHps]; [reflexivity|].
    rewrite String.eqb_refl, IH, IHps. reflexivity.
Qed.

Lemma eqb_string : forall u s, Js.eqb u (JString s) = true -> u = JString s.
Proof.
  intros u s H. destruct u; simpl in H; try discriminate.
  apply String.eqb_eq in H. congruence.
Qed.

Lemma lookupProp_setProp_ne o k k' x :
  k' <> k -> lookupProp (setProp o k x) k' = lookupProp o k'.
Proof.
  intros Hne. induction o as [|[k0 v0] o IH]; simpl.
  - destruct (String.eqb_spec k' k); congruence.
  - destruct (String.eqb_spec k k0) as [->|Hk]; simpl.
    + destruct (String.eqb_spec k' k0); congruence.
    + rewrite IH. reflexivity.
Qed.

Lemma lookupProp_setProp_eq o k x : lookupProp (setProp o k x) k = x.
Proof.
  induction o as [|[k0 v0] o IH]; simpl.
  - rewrite String.eqb_refl. reflexivity.
  - destruct (String.eqb_spec k k0) as [->|Hk]; simpl.
    + rewrite String.eqb_refl. reflexivity.
    + destruct (String.eqb_spec k k0); [contradiction|]. exact IH.
Qed.

Lemma lookupProp_absent o k : hasProp o k = false -> lookupProp o k = JUndefined.
Proof.
  induction o as [|[k0 v0] o IH]; simpl; [reflexivity|].
  destruct (String.eqb k k0); [discriminate|]. exact IH.
Qed.

(** ** The combinators are sound *)

Lemma Sound_guarded nm guard : Sound (t.guarded nm guard).
Proof.
  intros u c. simpl. destruct (guard u) eqn:E; simpl; [auto|].
  split; [discriminate | reflexivity].
Qed.

Lemma Sound_literal v : Sound (t.literal v).
Proof.
  intros u c. simpl. destruct (Js.eqb u (JString v)) eqn:E; simpl; [auto|].
  split; [discriminate | reflexivity].
Qed.

Lemma validateItems_sound item c :
  Sound item ->
  forall xs i,
    fst (t.validateItems item c i xs) = xs /\
    (snd (t.validateItems item c i xs) = [] <-> forallb (t.is_ item) xs = true).
Proof.
  intros Hs. induction xs as [|x xs IH]; intros i; simpl.
  - split; [reflexivity | split; reflexivity].
  - destruct (IH (S i)) as [Ha He].
    destruct (t.validateItems item c (S i) xs) as [a errors]; simpl in *.
    specialize (Hs x (t.appendContext c (natToString i) item)).
    destruct (t.validate item x (t.appendContext c (natToString i) item)) as [es|vok];
      destruct Hs as [H1 H2]; rewrite H2; simpl.
    + split; [congruence|]. split; [|discriminate].
      intros H. apply app_eq_nil in H. tauto.
    + subst. split; [reflexivity | exact He].
Qed.

Lemma Sound_array item : Sound item -> Sound (t.array item).
Proof.
  intros Hs u c. simpl. destruct u; simpl; try (split; [discriminate|reflexivity]).
  destruct (validateItems_sound item c Hs xs 0) as [Ha He].
  destruct (t.validateItems item c 0 xs) as [a errors]; simpl in *. subst a.
  destruct errors as [|e errors]; simpl.
  - split; [reflexivity|]. apply He. reflexivity.
  - split; [discriminate|].
    destruct (forallb (t.is_ item) xs); [|reflexivity].
    destruct He as [_ He]. discriminate (He eq_refl).
Qed.

Lemma fold_validateProp o c props :
  Forall (fun p => Sound (snd p)) props ->
  forall a errors,
    fold_left (t.validateProp o c) props (a, errors)
    = (a, errors ++ flat_map (propErrors o c) props).
Proof.
  induction 1 as [|[k type] props Hs _ IH]; intros a errors; simpl.
  - rewrite app_nil_r. reflexivity.
  - unfold propErrors at 1. simpl in *.
    specialize (Hs (lookupProp o k) (t.appendContext c k type)).
    destruct (t.validate type (lookupProp o k) (t.appendContext c k type)) as [es|vok];
      simpl.
    + rewrite IH, <- app_assoc. reflexivity.
    + destruct Hs as [-> _]. rewrite eqb_refl, IH. reflexivity.
Qed.

Lemma propErrors_nil o c props :
  Forall (fun p => Sound (snd p)) props ->
  flat_map (propErrors o c) props = []
  <-> forallb (fun p => t.is_ (snd p) (lookupProp o (fst p))) props = true.
Proof.
  induction 1 as [|[k type] props Hs _ IH]; simpl; [tauto|].
  unfold propErrors at 1. simpl in *.
  specialize (Hs (lookupProp o k) (t.appendContext c k type)).
  destruct (t.validate type (lookupProp o k) (t.appendContext c k type)) as [es|vok];
    destruct Hs as [H1 H2]; rewrite H2; simpl.
  - split; [|discriminate]. intros H. apply app_eq_nil in H. tauto.
  - exact IH.
Qed.

(** [t.type] on an object: the errors of the declared properties, in the
    order of the declaration; the input itself when there is none. *)
Lemma validate_type props nm o c :
  Forall (fun p => Sound (snd p)) props ->
  t.validate (t.type props nm) (JObject o) c
  = match flat_map (propErrors o c) props with
    | [] => t.Right (JObject o)
    | es => t.Left es
    end.
Proof.
  intros Hs. simpl. rewrite (fold_validateProp o c props Hs). simpl.
  destruct (flat_map (propErrors o c) props); reflexivity.
Qed.

Lemma Sound_type props nm :
  Forall (fun p => Sound (snd p)) props -> Sound (t.type props nm).
Proof.
  intros Hs u c. destruct u; try (simpl; split; [discriminate|reflexivity]).
  rewrite (validate_type props nm _ c Hs).
  pose proof (propErrors_nil props0 c props Hs) as He.
  cbn [t.is_ t.type].
  destruct (flat_map (propErrors props0 c) props) as [|e es].
  - split; [reflexivity|]. apply He. reflexivity.
  - split; [discriminate|].
    destruct (forallb _ props); [|reflexivity].
    destruct He as [_ He]. discriminate (He eq_refl).
Qed.

Lemma validate_intersection types :
  Forall Sound types ->
  forall a c errors,
    t.validateIntersection types a c errors
    = match errors ++ flat_map (fun type => errorsOf (t.validate type a c)) types with
      | [] => t.Right a
      | es => t.Left es
      end.
Proof.
  induction 1 as [|type types Hs _ IH]; intros a c errors; simpl.
  - rewrite app_nil_r. destruct errors; reflexivity.
  - specialize (Hs a c).
    destruct (t.validate type a c) as [es|v]; simpl.
    + rewrite IH, <- app_assoc. reflexivity.
    + destruct Hs as [-> _]. apply IH.
Qed.

Lemma memberErrors_nil types a c :
  Forall Sound types ->
  flat_map (fun type => errorsOf (t.validate type a c)) types = []
  <-> forallb (fun type => t.is_ type a) types = true.
Proof.
  induction 1 as [|type types Hs _ IH]; simpl; [tauto|].
  specialize (Hs a c).
  destruct (t.validate type a c) as [es|v]; destruct Hs as [H1 H2]; rewrite H2; simpl.
  - split; [|discriminate]. intros H. apply app_eq_nil in H. tauto.
  - exact IH.
Qed.

Lemma Sound_intersection types nm :
  Forall Sound types -> Sound (t.intersection types nm).
Proof.
  intros Hs u c. cbn [t.validate t.is_ t.intersection].
  rewrite (validate_intersection types Hs). simpl.
  pose proof (memberErrors_nil types u c Hs) as He.
  destruct (flat_map _ types) as [|e es].
  - split; [reflexivity|]. apply He. reflexivity.
  - split; [discriminate|].
    destruct (forallb _ types); [|reflexivity].
    destruct He as [_ He]. discriminate (He eq_refl).
Qed.

Lemma validateUnion_sound types :
  Forall Sound types ->
  forall i u c errors,
    match t.validateUnion types i u c errors with
    | t.Right v => v = u /\ existsb (fun type => t.is_ type u) types = true
    | t.Left es =>
        (types <> [] \/ errors <> [] -> es <> [])
        /\ existsb (fun type => t.is_ type u) types = false
    end.
Proof.
  induction 1 as [|type types Hs _ IH]; intros i u c errors; simpl.
  - split; [|reflexivity]. intros [H|H]; [contradiction | exact H].
  - specialize (Hs u (t.appendContext c (natToString i) type)).
    destruct (t.validate type u (t.appendContext c (natToString i) type)) as [es|v].
    + destruct Hs as [Hne Hf]. rewrite Hf. simpl.
      specialize (IH (S i) u c (errors ++ es)).
      destruct (t.validateUnion types (S i) u c (errors ++ es)) as [es'|v]; [|exact IH].
      destruct IH as [IH1 IH2]. split; [|exact IH2].
      intros _. apply IH1. right. intros H. apply app_eq_nil in H. tauto.
    + destruct Hs as [-> Ht]. rewrite Ht. auto.
Qed.

Lemma Sound_union types nm :
  types <> [] -> Forall Sound types -> Sound (t.union types nm).
Proof.
  intros Hne Hs u c. cbn [t.validate t.is_ t.union].
  pose proof (validateUnion_sound types Hs 0 u c []) as H.
  destruct (t.validateUnion types 0 u c []) as [es|v]; [|exact H].
  destruct H as [H1 H2]. split; [apply H1; left; exact Hne | exact H2].
Qed.

Lemma tagValue2Index_In tag types :
  forall i v j type,
    t.tagValue2Index tag types i v = Some (j, type) -> In type types.
Proof.
  induction types as [|type0 types IH]; intros i v j type; simpl; [discriminate|].
  destruct (t.tagValue2Index tag types (S i) v) as [[j' type']|] eqn:E.
  - intros H. injection H as <- <-. right. eapply IH. exact E.
  - destruct (t.tagValue type0 tag) as [v'|]; [|discriminate].
    destruct (String.eqb v v'); [|discriminate].
    intros H. injection H as <- <-. left. reflexivity.
Qed.

Lemma Sound_taggedUnion tag types nm :
  Forall Sound types -> Sound (t.taggedUnion tag types nm).
Proof.
  intros Hs u c. cbn [t.validate t.is_ t.taggedUnion t.keyof t.guarded].
  destruct u; try (simpl; split; [discriminate|reflexivity]).
  destruct (lookupProp props tag) eqn:Etag;
    try (simpl; split; [discriminate|reflexivity]).
  destruct (existsb (String.eqb s) (t.tagValues tag types [])) eqn:Ekey;
    cbn [t.success t.failure t.failures andb];
    [|split; [discriminate|reflexivity]].
  destruct (t.tagValue2Index tag types 0 s) as [[i type]|] eqn:Eidx;
    [|simpl; split; [discriminate|reflexivity]].
  apply tagValue2Index_In in Eidx.
  rewrite List.Forall_forall in Hs. exact (Hs type Eidx _ _).
Qed.

(** ** The validators of the program are sound *)

Lemma Sound_optional type nm : Sound type -> Sound (optional type nm).
Proof.
  intros Hs. apply Sound_union; [discriminate|].
  repeat constructor; [exact Hs | apply Sound_guarded].
Qed.

Ltac sound :=
  repeat first
    [ apply Sound_guarded | apply Sound_literal | apply Sound_array
    | apply Sound_optional | apply Sound_type | apply Sound_intersection
    | apply Sound_taggedUnion | apply List.Forall_cons | apply List.Forall_nil
    | progress cbn [snd] ].

Lemma Sound_ID_V : Sound ID_V.
Proof. sound. Qed.

Lemma Sound_IDs : Sound (t.array ID_V).
Proof. sound. Qed.

Lemma Sound_ItemCommonProps : Forall (fun p => Sound (snd p)) ItemCommonProps.
Proof. unfold ItemCommonProps. sound. Qed.

Lemma Sound_TopLevelProps : Forall (fun p => Sound (snd p)) TopLevelProps.
Proof. unfold TopLevelProps. sound. Qed.

Lemma Sound_StoryProps : Forall (fun p => Sound (snd p)) StoryProps.
Proof. unfold StoryProps. sound. Qed.

Lemma Sound_JobProps : Forall (fun p => Sound (snd p)) JobProps.
Proof. unfold JobProps. sound. Qed.

Lemma Sound_PollProps : Forall (fun p => Sound (snd p)) PollProps.
Proof. unfold PollProps. sound. Qed.

Lemma Sound_CommentProps : Forall (fun p => Sound (snd p)) CommentProps.
Proof. unfold CommentProps. sound. Qed.

Lemma Sound_PollOptProps : Forall (fun p => Sound (snd p)) PollOptProps.
Proof. unfold PollOptProps. sound. Qed.

Lemma Sound_ItemCommonV : Sound ItemCommonV.
Proof. apply Sound_type, Sound_ItemCommonProps. Qed.

Lemma Sound_TopLevelV : Sound TopLevelV.
Proof. apply Sound_type, Sound_TopLevelProps. Qed.

Lemma Sound_StoryV : Sound StoryV.
Proof.
  apply Sound_intersection. repeat constructor;
    [apply Sound_type, Sound_StoryProps | apply Sound_ItemCommonV | apply Sound_TopLevelV].
Qed.

Lemma Sound_JobV : Sound JobV.
Proof.
  apply Sound_intersection. repeat constructor;
    [apply Sound_type, Sound_JobProps | apply Sound_ItemCommonV | apply Sound_TopLevelV].
Qed.

Lemma Sound_PollV : Sound PollV.
Proof.
  apply Sound_intersection. repeat constructor;
    [apply Sound_type, Sound_PollProps | apply Sound_ItemCommonV | apply Sound_TopLevelV].
Qed.

Lemma Sound_CommentV : Sound CommentV.
Proof.
  apply Sound_intersection. repeat constructor;
    [apply Sound_type, Sound_CommentProps | apply Sound_ItemCommonV].
Qed.

Lemma Sound_PollOptV : Sound PollOptV.
Proof.
  apply Sound_intersection. repeat constructor.
  apply Sound_type, Sound_PollOptProps.
Qed.

Lemma Sound_ItemV : Sound ItemV.
Proof.
  apply Sound_taggedUnion. repeat constructor;
    auto using Sound_CommentV, Sound_JobV, Sound_PollV, Sound_PollOptV, Sound_StoryV.
Qed.

(** A sound validator decodes exactly the values of its type guard, and
    returns them unchanged. *)
Lemma decode_Right type u v :
  Sound type -> t.decode type u = t.Right v -> v = u /\ t.is_ type u = true.
Proof.
  intros Hs H. specialize (Hs u (t.getDefaultContext type)).
  unfold t.decode in H. rewrite H in Hs. exact Hs.
Qed.

Lemma decode_is type u :
  Sound type -> t.is_ type u = true -> t.decode type u = t.Right u.
Proof.
  intros Hs H. specialize (Hs u (t.getDefaultContext type)).
  unfold t.decode. destruct (t.validate type u _) as [es|v].
  - destruct Hs as [_ Hf]. congruence.
  - destruct Hs as [-> _]. reflexivity.
Qed.

Lemma decode_Left type u es :
  Sound type -> t.decode type u = t.Left es -> es <> [] /\ t.is_ type u = false.
Proof.
  intros Hs H. specialize (Hs u (t.getDefaultContext type)).
  unfold t.decode in H. rewrite H in Hs. exact Hs.
Qed.

(** ** The type guards agree with the static types

    A value passes the guard of a validator exactly when it has a view at
    the static type of the validator. *)

Lemma mapM_asNumber xs : hasView (mapM asNumber xs) = forallb (t.is_ ID_V) xs.
Proof.
  induction xs as [|x xs IH]; [reflexivity|].
  cbn. destruct x; cbn; try reflexivity.
  cbn in IH. rewrite <- IH. destruct (mapM asNumber xs); reflexivity.
Qed.

Ltac look d k :=
  destruct (lookupProp d k) eqn:?; cbn; try reflexivity.

Ltac look_array :=
  match goal with
  | |- context [mapM asNumber ?xs] =>
      let Hm := fresh in
      pose proof (mapM_asNumber xs) as Hm; cbn in Hm; rewrite <- Hm;
      destruct (mapM asNumber xs); cbn; try reflexivity
  end.

Lemma is_ItemCommonV d : t.is_ ItemCommonV (JObject d) = hasView (asItemCommon (JObject d)).
Proof.
  unfold asItemCommon, getProp. cbn.
  look d "by"; look d "id"; look d "time"; look d "dead"; look d "deleted";
    look d "kids"; look_array.
Qed.

Lemma is_TopLevelV d : t.is_ TopLevelV (JObject d) = hasView (asTopLevel (JObject d)).
Proof.
  unfold asTopLevel, getProp. cbn. look d "score"; look d "title".
Qed.


Ltac members d :=
  rewrite ?is_ItemCommonV, ?is_TopLevelV;
  destruct (asItemCommon (JObject d)); try destruct (asTopLevel (JObject d));
  unfold getProp; cbn.

Ltac literal d :=
  look d "type"; destruct (String.eqb _ _); cbn; try reflexivity.

Lemma is_StoryV d : t.is_ StoryV (JObject d) = hasView (asStory (JObject d)).
Proof.
  change (t.is_ StoryV (JObject d))
    with (t.is_ (t.type StoryProps None) (JObject d)
          && (t.is_ ItemCommonV (JObject d) && (t.is_ TopLevelV (JObject d) && true))).
  unfold asStory, asLiteral. members d.
  all: literal d; look d "descendants"; look d "text"; look d "url".
Qed.

Lemma is_JobV d : t.is_ JobV (JObject d) = hasView (asJob (JObject d)).
Proof.
  change (t.is_ JobV (JObject d))
    with (t.is_ (t.type JobProps None) (JObject d)
          && (t.is_ ItemCommonV (JObject d) && (t.is_ TopLevelV (JObject d) && true))).
  unfold asJob, asLiteral. members d.
  all: literal d; look d "text"; look d "url".
Qed.

Lemma is_PollV d : t.is_ PollV (JObject d) = hasView (asPoll (JObject d)).
Proof.
  change (t.is_ PollV (JObject d))
    with (t.is_ (t.type PollProps None) (JObject d)
          && (t.is_ ItemCommonV (JObject d) && (t.is_ TopLevelV (JObject d) && true))).
  unfold asPoll, asLiteral. members d.
  all: literal d; look d "descendants"; look d "parts"; look_array.
Qed.

Lemma is_CommentV d : t.is_ CommentV (JObject d) = hasView (asComment (JObject d)).
Proof.
  change (t.is_ CommentV (JObject d))
    with (t.is_ (t.type CommentProps None) (JObject d)
          && (t.is_ ItemCommonV (JObject d) && true)).
  unfold asComment, asLiteral. members d.
  all: literal d; look d "parent"; look d "text".
Qed.

Lemma is_PollOptV d : t.is_ PollOptV (JObject d) = hasView (asPollOpt (JObject d)).
Proof.
  unfold asPollOpt, asLiteral, getProp. cbn.
  literal d; look d "poll"; look d "score"; look d "text".
Qed.

Lemma is_ItemV u : t.is_ ItemV u = hasView (asItem u).
Proof.
  destruct u as [ | | | | | |d]; try reflexivity.
  unfold asItem, getProp.
  change (t.is_ ItemV (JObject d))
    with (match lookupProp d "type" with
          | JString v =>
              t.is_ (t.keyof (t.tagValues "type" [CommentV; JobV; PollV; PollOptV; StoryV] []))
                (JString v)
              && match t.tagValue2Index "type" [CommentV; JobV; PollV; PollOptV; StoryV] 0 v with
                 | Some (_, type) => t.is_ type (JObject d)
                 | None => false
                 end
          | _ => false
          end).
  destruct (lookupProp d "type") as [ | | | |tag| | ]; try reflexivity.
  destruct (String.eqb_spec tag "comment") as [->|H1].
  { change (t.is_ CommentV (JObject d) = hasView (ItemComment <$> asComment (JObject d))).
    rewrite is_CommentV. destruct (asComment (JObject d)); reflexivity. }
  destruct (String.eqb_spec tag "job") as [->|H2].
  { change (t.is_ JobV (JObject d) = hasView (ItemJob <$> asJob (JObject d))).
    rewrite is_JobV. destruct (asJob (JObject d)); reflexivity. }
  destruct (String.eqb_spec tag "poll") as [->|H3].
  { change (t.is_ PollV (JObject d) = hasView (ItemPoll <$> asPoll (JObject d))).
    rewrite is_PollV. destruct (asPoll (JObject d)); reflexivity. }
  destruct (String.eqb_spec tag "pollopt") as [->|H4].
  { change (t.is_ PollOptV (JObject d) = hasView (ItemPollOpt <$> asPollOpt (JObject d))).
    rewrite is_PollOptV. destruct (asPollOpt (JObject d)); reflexivity. }
  destruct (String.eqb_spec tag "story") as [->|H5].
  { change (t.is_ StoryV (JObject d) = hasView (ItemStory <$> asStory (JObject d))).
    rewrite is_StoryV. destruct (asStory (JObject d)); reflexivity. }
  apply String.eqb_neq in H1, H2, H3, H4, H5.
  change (t.is_ (t.keyof (t.tagValues "type" [CommentV; JobV; PollV; PollOptV; StoryV] []))
            (JString tag))
    with (existsb (String.eqb tag) ["comment"; "job"; "poll"; "pollopt"; "story"]).
  cbn [existsb]. rewrite H1, H2, H3, H4, H5. reflexivity.
Qed.

(** ** The presenter on decoded items *)

Lemma asString_Some x s : asString x = Some s -> x = JString s.
Proof. destruct x; simpl; congruence. Qed.

Lemma asLiteral_Some tag x : asLiteral tag x = Some tt -> x = JString tag.
Proof.
  unfold asLiteral. destruct (Js.eqb x (JString tag)) eqn:E; [|discriminate].
  intros _. apply eqb_string. exact E.
Qed.

Lemma asArray_Some x (l : list Z) :
  asArray asNumber x = Some l -> exists xs, x = JArray xs /\ length xs = length l.
Proof.
  destruct x; simpl; try discriminate. intros H. exists xs. split; [reflexivity|].
  apply length_mapM in H. exact H.
Qed.

Lemma asItemCommon_by v c : asItemCommon v = Some c -> getProp v "by" = JString (by_ c).
Proof.
  unfold asItemCommon. intros H. simplify_option_eq. simpl.
  apply asString_Some. assumption.
Qed.

Lemma asTopLevel_title v tp : asTopLevel v = Some tp -> getProp v "title" = JString (title tp).
Proof.
  unfold asTopLevel. intros H. simplify_option_eq. simpl.
  apply asString_Some. assumption.
Qed.

Lemma firstn_min {A} (l : list A) n : firstn (Nat.min n (length l)) l = firstn n l.
Proof.
  revert n. induction l as [|x l IH]; intros [|n]; simpl; try reflexivity.
  f_equal. apply IH.
Qed.

Lemma firstn_substring s n :
  string_of_list_ascii (firstn n (list_ascii_of_string s)) = substring 0 n s.
Proof.
  revert n. induction s as [|a s IH]; intros [|n]; simpl; try reflexivity.
  f_equal. apply IH.
Qed.

Lemma slice_prefix {A} (l : list A) n :
  slice l 0 (Z.of_nat n) = firstn n l.
Proof.
  unfold slice, relativeIndex. simpl (0 <? 0)%Z. cbv iota.
  assert ((Z.of_nat n <? 0)%Z = false) as -> by (apply Z.ltb_ge; lia).
  rewrite Nat2Z.id. simpl. rewrite Nat.sub_0_r. apply firstn_min.
Qed.

Lemma sliceString_prefix s n :
  sliceString s 0 (Z.of_nat n) = substring 0 n s.
Proof.
  unfold sliceString. rewrite slice_prefix. apply firstn_substring.
Qed.

Lemma excerptOf_spec text : excerptOf text = specExcerpt text.
Proof.
  unfold excerptOf, specExcerpt.
  destruct (Nat.ltb_spec 60 (String.length text)) as [H|H];
    destruct (Nat.leb_spec (String.length text) 60) as [H'|H']; try lia; [|reflexivity].
  change (sliceString text 0 60) with (sliceString text 0 (Z.of_nat 60)).
  rewrite sliceString_prefix. reflexivity.
Qed.

Ltac fields :=
  repeat match goal with
    | H : asItemCommon _ = Some _ |- _ => apply asItemCommon_by in H; try rewrite H
    | H : asTopLevel _ = Some _ |- _ => apply asTopLevel_title in H; try rewrite H
    | H : asString _ = Some _ |- _ => apply asString_Some in H; try rewrite H
    | H : asArray asNumber _ = Some _ |- _ =>
        apply asArray_Some in H; destruct H as (? & H & ?); try rewrite H
    end.

Ltac variant E view :=
  simpl; intros H; destruct view as [x|] eqn:E; [|discriminate];
  injection H as <-; unfold asComment, asJob, asPoll, asPollOpt, asStory in E;
  simplify_option_eq; fields.

Lemma format_agrees v item : asItem v = Some item -> specFormat v = Some (formatItem item).
Proof.
  unfold asItem, specFormat. destruct (getProp v "type") eqn:Etype; try discriminate.
  destruct (String.eqb_spec s "comment") as [->|H1].
  { variant E (asComment v). rewrite excerptOf_spec. reflexivity. }
  destruct (String.eqb_spec s "job") as [->|H2].
  { variant E (asJob v). reflexivity. }
  destruct (String.eqb_spec s "poll") as [->|H3].
  { variant E (asPoll v). simpl. congruence. }
  destruct (String.eqb_spec s "pollopt") as [->|H4].
  { variant E (asPollOpt v). reflexivity. }
  destruct (String.eqb_spec s "story") as [->|H5].
  { variant E (asStory v). reflexivity. }
  discriminate.
Qed.

Lemma asItem_decoded u v :
  t.decode ItemV u = t.Right v -> v = u /\ exists item, asItem u = Some item.
Proof.
  intros H. apply (decode_Right _ _ _ Sound_ItemV) in H. destruct H as [-> H].
  split; [reflexivity|]. rewrite is_ItemV in H.
  destruct (asItem u) as [item|]; [eauto | discriminate].
Qed.

Lemma asIDs_decoded u v :
  t.decode (t.array ID_V) u = t.Right v ->
  v = u /\ exists ids, asArray asNumber u = Some ids.
Proof.
  intros H. apply (decode_Right _ _ _ Sound_IDs) in H. destruct H as [-> H].
  split; [reflexivity|]. destruct u; try discriminate.
  pose proof (mapM_asNumber xs) as Hm. simpl in H. simpl.
  change (forallb (t.is_ ID_V) xs) with
    (forallb (fun u => match u with JNumber _ => true | _ => false end) xs) in Hm.
  rewrite H in Hm. destruct (mapM asNumber xs); [eauto | discriminate].
Qed.

(** C2: every item the decoder accepts has a view at the type [Item], the
    decoder promise is fulfilled with it, and [formatItem] returns for it
    the literal format that the output table gives for the tag of the
    item, filled with the fields of the decoded JSON: the story, job, poll,
    pollopt and comment formats, with N the length of [parts].  The
    presenter is a total function of the five variants. *)
Theorem formatItem_outputs_literal_format (u v : JsValue) :
  t.decode ItemV u = t.Right v ->
  exists item,
    asItem v = Some item
    /\ decodeToPromise ItemV asItem u = Fulfilled item
    /\ specFormat v = Some (formatItem item).
Proof.
  intros H. pose proof H as H'. apply asItem_decoded in H'.
  destruct H' as [-> [item Hi]].
  exists item. split; [exact Hi|]. split; [|apply format_agrees, Hi].
  unfold decodeToPromise. rewrite H, Hi. reflexivity.
Qed.

Lemma formatItem_outputs_literal_format_witness :
  t.decode ItemV exampleStory = t.Right exampleStory
  /\ exists item,
       asItem exampleStory = Some item
       /\ decodeToPromise ItemV asItem exampleStory = Fulfilled item
       /\ specFormat exampleStory = Some (formatItem item).
Proof.
  split; [reflexivity|].
  apply (formatItem_outputs_literal_format exampleStory exampleStory). reflexivity.
Defined.

(** The five formats on minimal objects. *)
Example format_story :
  formatItem <$> asItem exampleStory
  = Some (dquote +:+ "Hello" +:+ dquote +:+ " submitted by pg").
Proof. reflexivity. Qed.

Example format_job :
  formatItem <$> asItem
    (JObject [ ("by", JString "pg"); ("id", JNumber 1); ("score", JNumber 1);
               ("time", JNumber 0); ("title", JString "Ask"); ("type", JString "job") ])
  = Some "job posting: Ask".
Proof. reflexivity. Qed.

Example format_poll :
  formatItem <$> asItem
    (JObject [ ("by", JString "pg"); ("descendants", JNumber 0); ("id", JNumber 1);
               ("parts", JArray [JNumber 2; JNumber 3; JNumber 4]); ("score", JNumber 1);
               ("time", JNumber 0); ("title", JString "Which?"); ("type", JString "poll") ])
  = Some ("poll: " +:+ dquote +:+ "Which?" +:+ dquote +:+ " - choose one of 3 options").
Proof. reflexivity. Qed.

Example format_pollopt :
  formatItem <$> asItem
    (JObject [ ("poll", JNumber 1); ("score", JNumber 5); ("text", JString "This one");
               ("type", JString "pollopt") ])
  = Some "poll option: This one".
Proof. reflexivity. Qed.

Example format_comment :
  formatItem <$> asItem exampleComment = Some "norvig commented: Nice.".
Proof. reflexivity. Qed.

(** C3: for every decoded comment the presenter prints the author,
    [" commented: "] and the excerpt: the text itself when it has at most
    60 characters, its first 60 characters followed by ["..."] when it has
    61 or more. *)
Theorem comment_excerpt_rule (u v : JsValue) :
  t.decode ItemV u = t.Right v ->
  getProp v "type" = JString "comment" ->
  exists item author text,
    asItem v = Some item /\
    getProp v "by" = JString author /\
    getProp v "text" = JString text /\
    (String.length text <= 60 ->
       formatItem item = author +:+ " commented: " +:+ text) /\
    (61 <= String.length text ->
       formatItem item = author +:+ " commented: " +:+ substring 0 60 text +:+ "...").
Proof.
  intros H Htag. apply asItem_decoded in H. destruct H as [-> [item H]].
  pose proof (format_agrees _ _ H) as Hf.
  unfold specFormat in Hf. rewrite Htag in Hf. simpl in Hf.
  destruct (getProp u "by") as [ | | | |author| | ]; try discriminate.
  destruct (getProp u "text") as [ | | | |text| | ]; try discriminate.
  injection Hf as Hf. exists item, author, text.
  repeat split; try assumption; intros Hlen; rewrite <- Hf; unfold specExcerpt.
  - destruct (Nat.leb_spec (String.length text) 60); [reflexivity | lia].
  - destruct (Nat.leb_spec (String.length text) 60); [lia | reflexivity].
Qed.

Lemma comment_excerpt_rule_witness :
  exists item author text,
    asItem exampleComment = Some item /\
    getProp exampleComment "by" = JString author /\
    getProp exampleComment "text" = JString text /\
    (String.length text <= 60 ->
       formatItem item = author +:+ " commented: " +:+ text) /\
    (61 <= String.length text ->
       formatItem item = author +:+ " commented: " +:+ substring 0 60 text +:+ "...").
Proof.
  apply (comment_excerpt_rule exampleComment exampleComment); reflexivity.
Defined.

(** The rule at the boundary: 60 characters are printed as they are, 61 are
    cut. *)
Example excerpt_60 :
  excerptOf "123456789012345678901234567890123456789012345678901234567890"
  = "123456789012345678901234567890123456789012345678901234567890".
Proof. reflexivity. Qed.

Example excerpt_61 :
  excerptOf "1234567890123456789012345678901234567890123456789012345678901"
  = "123456789012345678901234567890123456789012345678901234567890...".
Proof. reflexivity. Qed.

(** ** The text fields *)

(** C4, as stated, fails: [t.string] accepts every string, the empty one
    too.  A story whose [by] and [title] are empty is decoded. *)
Lemma empty_by_and_title_accepted :
  t.decode ItemV anonymousStory = t.Right anonymousStory
  /\ getProp anonymousStory "by" = JString EmptyString
  /\ getProp anonymousStory "title" = JString EmptyString.
Proof. repeat split. Qed.

(** C4, amended: in every value the decoder accepts, [by] (story, job,
    poll, comment) and [title] (story, job, poll) are strings; a value in
    which one of them is missing or not a string is rejected.  The string
    may be empty. *)
Theorem by_and_title_are_strings (u v : JsValue) (tag : string) :
  t.decode ItemV u = t.Right v ->
  getProp v "type" = JString tag ->
  (tag <> "pollopt" -> exists s, getProp v "by" = JString s)
  /\ (tag = "story" \/ tag = "job" \/ tag = "poll" ->
      exists s, getProp v "title" = JString s).
Proof.
  intros H Htag. apply asItem_decoded in H. destruct H as [-> [item H]].
  unfold asItem in H. rewrite Htag in H. revert H.
  destruct (String.eqb_spec tag "comment") as [->|H1].
  { variant E (asComment u). split; [eauto|]. intros [?|[?|?]]; discriminate. }
  destruct (String.eqb_spec tag "job") as [->|H2].
  { variant E (asJob u). eauto. }
  destruct (String.eqb_spec tag "poll") as [->|H3].
  { variant E (asPoll u). eauto. }
  destruct (String.eqb_spec tag "pollopt") as [->|H4].
  { intros _. split; [congruence|]. intros [?|[?|?]]; discriminate. }
  destruct (String.eqb_spec tag "story") as [->|H5].
  { variant E (asStory u). eauto. }
  discriminate.
Qed.

Lemma by_and_title_are_strings_witness :
  (("story" : string) <> "pollopt" -> exists s, getProp exampleStory "by" = JString s)
  /\ (("story" : string) = "story" \/ ("story" : string) = "job" \/ ("story" : string) = "poll" ->
      exists s, getProp exampleStory "title" = JString s).
Proof.
  apply (by_and_title_are_strings exampleStory exampleStory "story"); reflexivity.
Defined.

(** ** The tag of the union *)

Lemma validate_guarded_false nm guard u c :
  t.is_ (t.guarded nm guard) u = false ->
  t.validate (t.guarded nm guard) u c = t.failure u c.
Proof. simpl. intros ->. reflexivity. Qed.

Lemma validate_taggedUnion_tag tag types nm d c :
  t.is_ (t.keyof (t.tagValues tag types [])) (lookupProp d tag) = false ->
  t.validate (t.taggedUnion tag types nm) (JObject d) c
  = t.failure (lookupProp d tag)
      (t.appendContext c tag (t.keyof (t.tagValues tag types []))).
Proof.
  intros H. cbn [t.validate t.taggedUnion].
  unfold t.keyof in *. rewrite validate_guarded_false by exact H. reflexivity.
Qed.

Lemma ItemTags_eq : ItemTags = ["comment"; "job"; "poll"; "pollopt"; "story"].
Proof. reflexivity. Qed.

Lemma is_ItemTagV_false x :
  (forall tag, x = JString tag -> ~ In tag ["comment"; "job"; "poll"; "pollopt"; "story"]) ->
  t.is_ ItemTagV x = false.
Proof.
  intros H. destruct x as [ | | | |tag| | ]; try reflexivity.
  specialize (H tag eq_refl). unfold ItemTagV. rewrite ItemTags_eq.
  cbn [t.is_ t.keyof t.guarded existsb].
  repeat match goal with
         | |- context [String.eqb tag ?k] =>
             destruct (String.eqb_spec tag k) as [->|?];
             [exfalso; apply H; cbn; tauto|]
         end.
  reflexivity.
Qed.

(** C5: when the [type] property of the input object is absent, is not a
    string or is not one of the five tags, decoding against [ItemV] fails
    with exactly one error.  Its context is the root followed by the
    property [type], its expected type is the set of the accepted literals,
    and no error of a variant is reported: no variant was tried.  The
    message of the rejected promise names the property and the literals. *)
Theorem unknown_tag_fails_at_type (d : list (string * JsValue)) :
  (forall tag, lookupProp d "type" = JString tag ->
               ~ In tag ["comment"; "job"; "poll"; "pollopt"; "story"]) ->
  let accepted :=
    "(keyof [" +:+ String.concat ","
       (map quoteString ["comment"; "job"; "poll"; "pollopt"; "story"]) +:+ "])" in
  t.decode ItemV (JObject d)
  = t.Left [t.mkValidationError (lookupProp d "type")
              [t.mkEntry EmptyString "Item"; t.mkEntry "type" accepted]]
  /\ decodeToPromise ItemV asItem (JObject d)
     = Rejected (mkError ("Expecting " +:+ accepted +:+ " at type but instead got: "
                          +:+ Reporter.jsToString (lookupProp d "type") +:+ ".")).
Proof.
  intros H accepted. apply is_ItemTagV_false in H.
  assert (t.decode ItemV (JObject d)
          = t.Left [t.mkValidationError (lookupProp d "type")
                      [t.mkEntry EmptyString "Item"; t.mkEntry "type" accepted]]) as E.
  { unfold t.decode, ItemV. rewrite validate_taggedUnion_tag by exact H. reflexivity. }
  split; [exact E|].
  unfold decodeToPromise. rewrite E. reflexivity.
Qed.

Lemma unknown_tag_fails_at_type_witness :
  let d := [("type", JString "tweet"); ("by", JNumber 1)] in
  let accepted :=
    "(keyof [" +:+ String.concat ","
       (map quoteString ["comment"; "job"; "poll"; "pollopt"; "story"]) +:+ "])" in
  t.decode ItemV (JObject d)
  = t.Left [t.mkValidationError (lookupProp d "type")
              [t.mkEntry EmptyString "Item"; t.mkEntry "type" accepted]]
  /\ decodeToPromise ItemV asItem (JObject d)
     = Rejected (mkError ("Expecting " +:+ accepted +:+ " at type but instead got: "
                          +:+ Reporter.jsToString (lookupProp d "type") +:+ ".")).
Proof.
  apply (unknown_tag_fails_at_type [("type", JString "tweet"); ("by", JNumber 1)]).
  intros tag H. injection H as <-. simpl. intuition discriminate.
Defined.

(** ** Properties that no validator declares *)

(** C6, as stated, fails: the decoder returns the input object itself, and
    the undeclared property is still on it. *)
Lemma extra_field_is_kept :
  t.decode ItemV storyWithKarma = t.Right storyWithKarma
  /\ getProp storyWithKarma "karma" = JNumber 7.
Proof. split; reflexivity. Qed.

Ltac undeclared Hk :=
  let E := fresh in
  intros E; apply Hk; rewrite <- E; cbn; tauto.

Lemma asItem_setProp d tag k x item :
  asItem (JObject d) = Some item ->
  lookupProp d "type" = JString tag ->
  ~ In k (map fst (declaredProps tag)) ->
  asItem (JObject (setProp d k x)) = Some item.
Proof.
  intros Hitem Htag Hk. rewrite <- Hitem.
  unfold declaredProps in Hk. unfold asItem, getProp in *.
  rewrite Htag in Hitem.
  destruct (String.eqb_spec tag "comment") as [->|H1];
  [|destruct (String.eqb_spec tag "job") as [->|H2];
  [|destruct (String.eqb_spec tag "poll") as [->|H3];
  [|destruct (String.eqb_spec tag "pollopt") as [->|H4];
  [|destruct (String.eqb_spec tag "story") as [->|H5]; [|discriminate]]]]].
  all: rewrite (lookupProp_setProp_ne d k "type" x) by undeclared Hk;
       rewrite Htag; simpl;
       unfold asComment, asJob, asPoll, asPollOpt, asStory, asItemCommon, asTopLevel, getProp;
       rewrite !lookupProp_setProp_ne by undeclared Hk; reflexivity.
Qed.

(** C6, amended: adding to a valid object a property that the validator
    of its tag does not declare is not an error; the decoder returns the
    object it was given, on which the property is still present; the view
    at the type [Item] does not change, it has no such field. *)
Theorem extra_field_is_ignored (d : list (string * JsValue)) (v : JsValue)
    (tag k : string) (x : JsValue) :
  t.decode ItemV (JObject d) = t.Right v ->
  lookupProp d "type" = JString tag ->
  ~ In k (map fst (declaredProps tag)) ->
  let d' := setProp d k x in
  t.decode ItemV (JObject d') = t.Right (JObject d')
  /\ lookupProp d' k = x
  /\ asItem (JObject d') = asItem v.
Proof.
  intros H Htag Hk d'. apply asItem_decoded in H. destruct H as [-> [item Hi]].
  pose proof (asItem_setProp d tag k x item Hi Htag Hk) as Hi'.
  split; [|split].
  - apply decode_is; [apply Sound_ItemV|]. rewrite is_ItemV. fold d' in Hi'.
    rewrite Hi'. reflexivity.
  - apply lookupProp_setProp_eq.
  - fold d' in Hi'. congruence.
Qed.

Lemma extra_field_is_ignored_witness :
  let d' := setProp exampleStoryProps "karma" (JNumber 7) in
  t.decode ItemV (JObject d') = t.Right (JObject d')
  /\ lookupProp d' "karma" = JNumber 7
  /\ asItem (JObject d') = asItem exampleStory.
Proof.
  apply (extra_field_is_ignored exampleStoryProps exampleStory "story" "karma" (JNumber 7)).
  - reflexivity.
  - reflexivity.
  - simpl. intuition discriminate.
Defined.

(** ** Optional properties *)

(** C7: a property wrapped in [optional], whose base validator rejects
    [undefined] and [null]: decoding succeeds when the property is omitted,
    with the absent marker [undefined] as its value; it succeeds when the
    property is present with a value of the base type, with that value,
    which is not the absent marker; [null] is rejected; a present value
    that is not of the base type is rejected. *)
Theorem optional_field (base : t.Type_) (c : t.Context) :
  Sound base ->
  t.is_ base JUndefined = false ->
  t.is_ base JNull = false ->
  (forall o k, hasProp o k = false ->
     t.validate (optional base None) (lookupProp o k) c = t.Right JUndefined)
  /\ (forall x, t.is_ base x = true ->
        t.validate (optional base None) x c = t.Right x /\ x <> JUndefined)
  /\ (exists es, t.validate (optional base None) JNull c = t.Left es /\ es <> [])
  /\ (forall x, x <> JUndefined -> t.is_ base x = false ->
        exists es, t.validate (optional base None) x c = t.Left es /\ es <> []).
Proof.
  intros Hs Hu Hn.
  assert (Sound (optional base None)) as Ho by (apply Sound_optional, Hs).
  assert (forall x, t.is_ (optional base None) x
                    = t.is_ base x || (t.is_ t.undefined x || false)) as His
    by reflexivity.
  assert (forall x, t.is_ (optional base None) x = true ->
                    t.validate (optional base None) x c = t.Right x) as Hok.
  { intros x Hx. specialize (Ho x c).
    destruct (t.validate (optional base None) x c) as [es|v].
    - destruct Ho. congruence.
    - destruct Ho as [-> _]. reflexivity. }
  assert (forall x, t.is_ (optional base None) x = false ->
                    exists es, t.validate (optional base None) x c = t.Left es /\ es <> [])
    as Hko.
  { intros x Hx. specialize (Ho x c).
    destruct (t.validate (optional base None) x c) as [es|v].
    - destruct Ho. eauto.
    - destruct Ho. congruence. }
  repeat split.
  - intros o k Hk. rewrite (lookupProp_absent o k Hk). apply Hok.
    rewrite His, Hu. reflexivity.
  - apply Hok. rewrite His, H. reflexivity.
  - intros ->. congruence.
  - apply Hko. rewrite His, Hn. reflexivity.
  - intros x Hx Hb. apply Hko. rewrite His, Hb. destruct x; try reflexivity.
    contradiction.
Qed.

Lemma optional_field_witness :
  (forall o k, hasProp o k = false ->
     t.validate (optional t.boolean None) (lookupProp o k) [] = t.Right JUndefined)
  /\ (forall x, t.is_ t.boolean x = true ->
        t.validate (optional t.boolean None) x [] = t.Right x /\ x <> JUndefined)
  /\ (exists es, t.validate (optional t.boolean None) JNull [] = t.Left es /\ es <> [])
  /\ (forall x, x <> JUndefined -> t.is_ t.boolean x = false ->
        exists es, t.validate (optional t.boolean None) x [] = t.Left es /\ es <> []).
Proof.
  apply (optional_field t.boolean []);
    [apply Sound_guarded | reflexivity | reflexivity].
Defined.

(** The base validators of the optional properties of the program,
    [dead], [deleted], [kids], [text] and [url], are of that kind. *)
Lemma optional_bases :
  Forall (fun base => Sound base /\ t.is_ base JUndefined = false
                      /\ t.is_ base JNull = false)
    [t.boolean; t.array ID_V; t.string].
Proof.
  repeat constructor; sound.
Qed.

Example url_omitted :
  t.decode ItemV (JObject [ ("by", JString "pg"); ("id", JNumber 1); ("score", JNumber 1);
                            ("time", JNumber 0); ("title", JString "Ask"); ("type", JString "job") ])
  = t.Right (JObject [ ("by", JString "pg"); ("id", JNumber 1); ("score", JNumber 1);
                       ("time", JNumber 0); ("title", JString "Ask"); ("type", JString "job") ]).
Proof. reflexivity. Qed.

Example url_null :
  decodeToPromise ItemV asItem
    (JObject [ ("by", JString "pg"); ("id", JNumber 1); ("score", JNumber 1);
               ("time", JNumber 0); ("title", JString "Ask"); ("type", JString "job");
               ("url", JNull) ])
  = Rejected (mkError ("Expecting string at 1.url.0 but instead got: null." +:+ newline
                       +:+ "Expecting undefined at 1.url.1 but instead got: null.")).
Proof. reflexivity. Qed.

(** ** Where the errors point *)

Lemma located_here u c :
  Forall (fun e => exists rest, t.context e = c ++ rest) [t.mkValidationError u c].
Proof. repeat constructor. exists []. simpl. rewrite app_nil_r. reflexivity. Qed.

Lemma located_below c k type es :
  Forall (fun e => exists rest, t.context e = t.appendContext c k type ++ rest) es ->
  Forall (fun e => exists rest, t.context e = c ++ rest) es.
Proof.
  intros Hes. eapply Forall_impl; [exact Hes|].
  intros e [rest H]. unfold t.appendContext in H.
  rewrite <- app_assoc in H. eauto.
Qed.

Lemma Located_guarded nm guard : Located (t.guarded nm guard).
Proof.
  intros u c es. simpl. destruct (guard u); [discriminate|].
  intros H. injection H as <-. apply located_here.
Qed.

Lemma Located_literal v : Located (t.literal v).
Proof.
  intros u c es. simpl. destruct (Js.eqb u (JString v)); [discriminate|].
  intros H. injection H as <-. apply located_here.
Qed.

Lemma validateItems_located item c :
  Located item ->
  forall xs i,
    Forall (fun e => exists rest, t.context e = c ++ rest)
      (snd (t.validateItems item c i xs)).
Proof.
  intros Hl. induction xs as [|x xs IH]; intros i; simpl; [constructor|].
  specialize (IH (S i)). destruct (t.validateItems item c (S i) xs) as [a errors].
  destruct (t.validate item x (t.appendContext c (natToString i) item)) as [es|vok] eqn:E;
    simpl in *; [|exact IH].
  apply Forall_app. split; [|exact IH].
  eapply located_below, Hl, E.
Qed.

Lemma Located_array item : Located item -> Located (t.array item).
Proof.
  intros Hl u c es. simpl. destruct u; try (intros H; injection H as <-; apply located_here).
  pose proof (validateItems_located item c Hl xs 0) as H.
  destruct (t.validateItems item c 0 xs) as [a errors]. simpl in H.
  destruct errors; [discriminate|]. intros E. injection E as <-. exact H.
Qed.

Lemma validateUnion_located types :
  Forall Located types ->
  forall i u c errors es,
    Forall (fun e => exists rest, t.context e = c ++ rest) errors ->
    t.validateUnion types i u c errors = t.Left es ->
    Forall (fun e => exists rest, t.context e = c ++ rest) es.
Proof.
  induction 1 as [|type types Hl _ IH]; intros i u c errors es Hacc; simpl.
  - intros H. injection H as <-. exact Hacc.
  - destruct (t.validate type u (t.appendContext c (natToString i) type)) as [es'|v] eqn:E;
      [|discriminate].
    apply IH. apply Forall_app. split; [exact Hacc|].
    eapply located_below, Hl, E.
Qed.

Lemma Located_union types nm : Forall Located types -> Located (t.union types nm).
Proof.
  intros Hl u c es. simpl. apply validateUnion_located; [exact Hl | constructor].
Qed.

Lemma propErrors_located o c props :
  Forall (fun p => Located (snd p)) props ->
  Forall (fun e => exists rest, t.context e = c ++ rest) (flat_map (propErrors o c) props).
Proof.
  induction 1 as [|[k type] props Hl _ IH]; simpl; [constructor|].
  apply Forall_app. split; [|exact IH].
  unfold propErrors. simpl.
  destruct (t.validate type (lookupProp o k) (t.appendContext c k type)) as [es|v] eqn:E;
    simpl; [|constructor].
  eapply located_below, Hl, E.
Qed.

Lemma Located_type props nm :
  Forall (fun p => Sound (snd p)) props ->
  Forall (fun p => Located (snd p)) props ->
  Located (t.type props nm).
Proof.
  intros Hs Hl u c es. destruct u;
    try (simpl; intros H; injection H as <-; apply located_here).
  rewrite (validate_type props nm _ c Hs).
  pose proof (propErrors_located props0 c props Hl) as H.
  destruct (flat_map (propErrors props0 c) props); [discriminate|].
  intros E. injection E as <-. exact H.
Qed.

Lemma memberErrors_located types a c :
  Forall Located types ->
  Forall (fun e => exists rest, t.context e = c ++ rest)
    (flat_map (fun type => errorsOf (t.validate type a c)) types).
Proof.
  induction 1 as [|type types Hl _ IH]; simpl; [constructor|].
  apply Forall_app. split; [|exact IH].
  destruct (t.validate type a c) as [es|v] eqn:E; simpl; [|constructor].
  eapply Hl, E.
Qed.

Lemma Located_intersection types nm :
  Forall Sound types -> Forall Located types -> Located (t.intersection types nm).
Proof.
  intros Hs Hl u c es. cbn [t.validate t.intersection].
  rewrite (validate_intersection types Hs). simpl.
  pose proof (memberErrors_located types u c Hl) as H.
  destruct (flat_map _ types); [discriminate|].
  intros E. injection E as <-. exact H.
Qed.

Lemma Located_taggedUnion tag types nm :
  Forall Located types -> Located (t.taggedUnion tag types nm).
Proof.
  intros Hl u c es. cbn [t.validate t.taggedUnion t.keyof t.guarded].
  destruct u; try (simpl; intros H; injection H as <-; apply located_here).
  destruct (lookupProp props tag) eqn:Etag;
    try (simpl; intros H; injection H as <-; eapply located_below, located_here).
  destruct (existsb (String.eqb s) (t.tagValues tag types [])) eqn:Ekey;
    cbn [t.success t.failure t.failures];
    [|intros H; injection H as <-; eapply located_below, located_here].
  destruct (t.tagValue2Index tag types 0 s) as [[i type]|] eqn:Eidx;
    [|intros H; injection H as <-; apply located_here].
  apply tagValue2Index_In in Eidx.
  rewrite List.Forall_forall in Hl. intros H.
  eapply located_below, (Hl type Eidx), H.
Qed.

Lemma Located_optional type nm : Located type -> Located (optional type nm).
Proof.
  intros Hl. apply Located_union. repeat constructor; [exact Hl | apply Located_guarded].
Qed.

Ltac located :=
  repeat first
    [ apply Located_guarded | apply Located_literal | apply Located_array
    | apply Located_optional | apply List.Forall_cons | apply List.Forall_nil
    | progress cbn [snd] ].

Lemma Located_declaredProps tag : Forall (fun p => Located (snd p)) (declaredProps tag).
Proof.
  unfold declaredProps.
  repeat match goal with
         | |- context [String.eqb tag ?k] => destruct (String.eqb tag k)
         end;
    unfold CommentProps, JobProps, PollProps, PollOptProps, StoryProps,
      ItemCommonProps, TopLevelProps; simpl app; located.
Qed.

Lemma Sound_declaredProps tag : Forall (fun p => Sound (snd p)) (declaredProps tag).
Proof.
  unfold declaredProps.
  repeat match goal with
         | |- context [String.eqb tag ?k] => destruct (String.eqb tag k)
         end;
    repeat (apply Forall_app; split);
    auto using Sound_CommentProps, Sound_JobProps, Sound_PollProps, Sound_PollOptProps,
      Sound_StoryProps, Sound_ItemCommonProps, Sound_TopLevelProps.
Qed.

Lemma Located_ItemV : Located ItemV.
Proof.
  assert (Located ItemCommonV) as Hc
    by (apply Located_type; [apply Sound_ItemCommonProps | unfold ItemCommonProps; located]).
  assert (Located TopLevelV) as Ht
    by (apply Located_type; [apply Sound_TopLevelProps | unfold TopLevelProps; located]).
  apply Located_taggedUnion. repeat constructor; apply Located_intersection.
  all: repeat constructor;
    auto using Sound_ItemCommonV, Sound_TopLevelV;
    try (apply Sound_type; auto using Sound_CommentProps, Sound_JobProps, Sound_PollProps,
           Sound_PollOptProps, Sound_StoryProps).
  all: apply Located_type;
    auto using Sound_CommentProps, Sound_JobProps, Sound_PollProps,
           Sound_PollOptProps, Sound_StoryProps.
  all: unfold CommentProps, JobProps, PollProps, PollOptProps, StoryProps; located.
Qed.

Lemma Located_IDs : Located (t.array ID_V).
Proof. located. Qed.

(** ** The report of a failed decoding *)

Lemma report_lines es :
  Forall (fun e => t.context e <> []) es ->
  Forall2 (fun e line => Reporter.formatValidationError e = Some line) es
    (omap Reporter.formatValidationError es).
Proof.
  induction 1 as [|e es He _ IH]; [constructor|].
  cbn [omap list_omap]. unfold Reporter.formatValidationError at 2.
  destruct (last (t.context e)) as [entry|] eqn:El.
  - constructor; [|exact IH].
    unfold Reporter.formatValidationError. rewrite El. reflexivity.
  - apply last_None in El. contradiction.
Qed.

Lemma located_nonempty c es :
  c <> [] ->
  Forall (fun e => exists rest, t.context e = c ++ rest) es ->
  Forall (fun e => t.context e <> []) es.
Proof.
  intros Hc Hes. eapply Forall_impl; [exact Hes|].
  intros e [rest ->]. destruct c; [contradiction | discriminate].
Qed.

Lemma failure_report (validator : t.Type_) (T : Type) (typeOf : JsValue -> option T)
    (u : JsValue) (es : t.Errors) :
  Sound validator -> Located validator ->
  t.decode validator u = t.Left es ->
  es <> []
  /\ (exists lines,
        Forall2 (fun e line => Reporter.formatValidationError e = Some line) es lines
        /\ decodeToPromise validator typeOf u
           = Rejected (mkError (String.concat newline lines)))
  /\ Forall (fun e => exists rest, t.context e = t.getDefaultContext validator ++ rest) es.
Proof.
  intros Hs Hl H. pose proof (decode_Left _ _ _ Hs H) as [Hne _].
  pose proof (Hl u _ es H) as Hloc.
  split; [exact Hne|]. split; [|exact Hloc].
  exists (omap Reporter.formatValidationError es). split.
  - apply report_lines. eapply located_nonempty; [|exact Hloc]. discriminate.
  - unfold decodeToPromise. rewrite H. reflexivity.
Qed.

Lemma errorsOf_type props nm d c :
  Forall (fun p => Sound (snd p)) props ->
  errorsOf (t.validate (t.type props nm) (JObject d) c) = flat_map (propErrors d c) props.
Proof.
  intros Hs. rewrite (validate_type props nm d c Hs).
  destruct (flat_map (propErrors d c) props); reflexivity.
Qed.

(** An intersection of interface validators on an object: the errors of
    all the declared properties, member after member. *)
Lemma validate_intersection_types
    (members : list (list (string * t.Type_) * option string)) nm d c :
  Forall (fun m => Forall (fun p => Sound (snd p)) (fst m)) members ->
  t.validate (t.intersection (map (fun m => t.type (fst m) (snd m)) members) nm)
    (JObject d) c
  = match flat_map (propErrors d c) (concat (map fst members)) with
    | [] => t.Right (JObject d)
    | es => t.Left es
    end.
Proof.
  intros Hs. cbn [t.validate t.intersection].
  rewrite validate_intersection.
  - simpl. replace (flat_map _ (map _ members))
      with (flat_map (propErrors d c) (concat (map fst members))); [reflexivity|].
    induction Hs as [|[props nm'] members Hp _ IH]; [reflexivity|].
    cbn [map concat flat_map fst snd] in *. rewrite flat_map_app, IH. f_equal.
    symmetry. apply (errorsOf_type props nm' d c Hp).
  - induction Hs as [|[props nm'] members Hp _ IH]; constructor; [|exact IH].
    apply Sound_type. exact Hp.
Qed.

Lemma validate_taggedUnion_variant tag types nm d c v i variant :
  lookupProp d tag = JString v ->
  existsb (String.eqb v) (t.tagValues tag types []) = true ->
  t.tagValue2Index tag types 0 v = Some (i, variant) ->
  t.validate (t.taggedUnion tag types nm) (JObject d) c
  = t.validate variant (JObject d) (t.appendContext c (natToString i) variant).
Proof.
  intros Htag Hkey Hidx. cbn [t.validate t.taggedUnion t.keyof t.guarded].
  rewrite Htag, Hkey. cbn [t.success]. rewrite Hidx. reflexivity.
Qed.

Ltac variant_members members nm :=
  etransitivity;
  [ apply (validate_intersection_types members nm);
    repeat (apply List.Forall_cons;
            [ cbn [fst];
              auto using Sound_CommentProps, Sound_JobProps, Sound_PollProps,
                Sound_PollOptProps, Sound_StoryProps, Sound_ItemCommonProps,
                Sound_TopLevelProps | ]);
    apply List.Forall_nil
  | cbn [concat map fst]; rewrite app_nil_r; reflexivity ].

Lemma validate_ItemV_variant d tag c :
  lookupProp d "type" = JString tag ->
  In tag ItemTags ->
  exists i variant,
    t.tagValue2Index "type" [CommentV; JobV; PollV; PollOptV; StoryV] 0 tag
    = Some (i, variant)
    /\ t.validate ItemV (JObject d) c
       = match flat_map (propErrors d (t.appendContext c (natToString i) variant))
                 (declaredProps tag) with
         | [] => t.Right (JObject d)
         | es => t.Left es
         end.
Proof.
  intros Htag Hin. rewrite ItemTags_eq in Hin. simpl in Hin.
  destruct Hin as [<-|[<-|[<-|[<-|[<-|[]]]]]].
  - exists 0, CommentV. split; [reflexivity|].
    unfold ItemV. rewrite (validate_taggedUnion_variant _ _ _ _ _ _ 0 CommentV Htag);
      try reflexivity.
    variant_members
      [(CommentProps, @None string); (ItemCommonProps, Some "ItemCommon")] "Comment".
  - exists 1, JobV. split; [reflexivity|].
    unfold ItemV. rewrite (validate_taggedUnion_variant _ _ _ _ _ _ 1 JobV Htag);
      try reflexivity.
    variant_members
      [(JobProps, @None string); (ItemCommonProps, Some "ItemCommon");
       (TopLevelProps, Some "TopLevel")] "Job".
  - exists 2, PollV. split; [reflexivity|].
    unfold ItemV. rewrite (validate_taggedUnion_variant _ _ _ _ _ _ 2 PollV Htag);
      try reflexivity.
    variant_members
      [(PollProps, @None string); (ItemCommonProps, Some "ItemCommon");
       (TopLevelProps, Some "TopLevel")] "Poll".
  - exists 3, PollOptV. split; [reflexivity|].
    unfold ItemV. rewrite (validate_taggedUnion_variant _ _ _ _ _ _ 3 PollOptV Htag);
      try reflexivity.
    variant_members [(PollOptProps, @None string)] "PollOpt".
  - exists 4, StoryV. split; [reflexivity|].
    unfold ItemV. rewrite (validate_taggedUnion_variant _ _ _ _ _ _ 4 StoryV Htag);
      try reflexivity.
    variant_members
      [(StoryProps, @None string); (ItemCommonProps, Some "ItemCommon");
       (TopLevelProps, Some "TopLevel")] "Story".
Qed.

Lemma failing_prop_reported d c props k type :
  Forall (fun p => Sound (snd p)) props ->
  Forall (fun p => Located (snd p)) props ->
  In (k, type) props ->
  t.is_ type (lookupProp d k) = false ->
  exists e, In e (flat_map (propErrors d c) props)
            /\ exists rest, t.context e = c ++ [t.mkEntry k (t.name type)] ++ rest.
Proof.
  intros Hs Hl Hin His.
  rewrite List.Forall_forall in Hs, Hl.
  specialize (Hs _ Hin (lookupProp d k) (t.appendContext c k type)).
  specialize (Hl _ Hin (lookupProp d k) (t.appendContext c k type)).
  simpl in Hs, Hl.
  destruct (t.validate type (lookupProp d k) (t.appendContext c k type)) as [es|v] eqn:E;
    [|destruct Hs; congruence].
  destruct Hs as [Hne _]. specialize (Hl es eq_refl).
  destruct es as [|e es]; [contradiction|].
  exists e. split.
  - apply in_flat_map. exists (k, type). split; [exact Hin|].
    unfold propErrors. simpl. rewrite E. left. reflexivity.
  - inversion Hl as [|? ? [rest Hr] _]; subst. exists rest.
    rewrite Hr. unfold t.appendContext. rewrite <- app_assoc. reflexivity.
Qed.

Lemma validateItems_errors item c xs :
  forall i,
    snd (t.validateItems item c i xs)
    = concat (imap (fun j x =>
                      errorsOf (t.validate item x
                                  (t.appendContext c (natToString (i + j)) item))) xs).
Proof.
  induction xs as [|x xs IH]; intros i; [reflexivity|].
  cbn [t.validateItems]. rewrite imap_cons. cbn [concat]. rewrite Nat.add_0_r.
  specialize (IH (S i)).
  destruct (t.validateItems item c (S i) xs) as [a errors]. cbn [snd] in IH.
  assert (errors
          = concat (imap ((fun j x0 => errorsOf (t.validate item x0
                    (t.appendContext c (natToString (i + j)) item))) ∘ S) xs)) as ->.
  { rewrite IH. f_equal. apply imap_ext. intros j y _. simpl.
    rewrite Nat.add_succ_r. reflexivity. }
  destruct (t.validate item x (t.appendContext c (natToString i) item)); reflexivity.
Qed.

(** C8: when decoding fails, against [ItemV] or against the list of IDs,
    the list of errors is not empty; every error yields one line of the
    report, in order, and the promise is rejected with the lines joined by
    newlines, so that no value is returned; the context of every error
    starts at the root.  For an object with a valid tag the errors are
    those of all the properties that the validator of the tag declares,
    each validated on its own, in the order of the declaration: every
    failing property has an error whose context is the path to the
    property, whose last entry names the expected type and whose value is
    what was found there.  For an array the errors are those of all the
    elements, in order. *)
Theorem decode_failure_report (validator : t.Type_) (T : Type)
    (typeOf : JsValue -> option T) (u : JsValue) (es : t.Errors) :
  validator = ItemV \/ validator = t.array ID_V ->
  t.decode validator u = t.Left es ->
  es <> []
  /\ (exists lines,
        Forall2 (fun e line => Reporter.formatValidationError e = Some line) es lines
        /\ decodeToPromise validator typeOf u
           = Rejected (mkError (String.concat newline lines)))
  /\ Forall (fun e => exists rest, t.context e = t.getDefaultContext validator ++ rest) es
  /\ (forall d tag,
        validator = ItemV -> u = JObject d ->
        lookupProp d "type" = JString tag -> In tag ItemTags ->
        exists i variant,
          let c := t.appendContext (t.getDefaultContext ItemV) (natToString i) variant in
          t.tagValue2Index "type" [CommentV; JobV; PollV; PollOptV; StoryV] 0 tag
          = Some (i, variant)
          /\ es = flat_map (propErrors d c) (declaredProps tag)
          /\ forall k type,
               In (k, type) (declaredProps tag) ->
               t.is_ type (lookupProp d k) = false ->
               exists e, In e es
                         /\ exists rest,
                              t.context e = c ++ [t.mkEntry k (t.name type)] ++ rest)
  /\ (forall xs,
        validator = t.array ID_V -> u = JArray xs ->
        es = concat (imap (fun i x =>
                             errorsOf (t.validate ID_V x
                                         (t.appendContext (t.getDefaultContext (t.array ID_V))
                                            (natToString i) ID_V))) xs)).
Proof.
  intros Hv H.
  assert (Sound validator /\ Located validator) as [Hs Hl]
    by (destruct Hv as [->| ->];
        auto using Sound_ItemV, Located_ItemV, Sound_IDs, Located_IDs).
  destruct (failure_report validator T typeOf u es Hs Hl H) as (Hne & Hlines & Hloc).
  repeat (split; [assumption|]). split.
  - intros d tag -> -> Htag Hin.
    destruct (validate_ItemV_variant d tag (t.getDefaultContext ItemV) Htag Hin)
      as (i & variant & Hidx & Hval).
    exists i, variant. cbv zeta. split; [exact Hidx|].
    unfold t.decode in H. rewrite Hval in H.
    destruct (flat_map _ (declaredProps tag)) as [|e0 es0] eqn:E; [discriminate|].
    injection H as <-. split; [reflexivity|].
    intros k type Hin' His. rewrite <- E.
    apply failing_prop_reported;
      auto using Sound_declaredProps, Located_declaredProps.
  - intros xs -> ->. unfold t.decode in H. cbn [t.validate t.array] in H.
    pose proof (validateItems_errors ID_V (t.getDefaultContext (t.array ID_V)) xs 0) as E.
    destruct (t.validateItems ID_V (t.getDefaultContext (t.array ID_V)) 0 xs)
      as [a errors].
    simpl in E. destruct errors; [discriminate|]. injection H as <-. exact E.
Qed.

Lemma decode_failure_report_witness :
  exists es, t.decode ItemV brokenStory = t.Left es /\ es <> [].
Proof.
  eexists. split; [reflexivity|].
  apply (decode_failure_report ItemV Item asItem brokenStory _ (or_introl eq_refl) eq_refl).
Defined.

Example brokenStory_report :
  decodeToPromise ItemV asItem brokenStory
  = Rejected (mkError
      ("Expecting string at 4.by but instead got: 3." +:+ newline
       +:+ "Expecting boolean at 4.dead.0 but instead got: null." +:+ newline
       +:+ "Expecting undefined at 4.dead.1 but instead got: null." +:+ newline
       +:+ "Expecting string at 4.title but instead got: undefined.")).
Proof. reflexivity. Qed.

(** ** Promise.all *)

Section PromiseAll.

Context {A : Type}.
Implicit Types (promises : list (Promise A)) (st : AllState A) (sched : list nat).

Lemma settled_stable promises sched st r :
  settled st = Some r ->
  settled (fold_left (settleElement promises) sched st) = Some r.
Proof.
  revert st. induction sched as [|i sched IH]; intros st H; [exact H|].
  simpl. apply IH. unfold settleElement.
  destruct (promises !! i) as [[x|e|]|]; simpl; try exact H.
  - rewrite H. destruct (Nat.eqb _ 0); reflexivity.
  - rewrite H. reflexivity.
Qed.

Lemma settleElement_rejected promises st j e :
  promises !! j = Some (Rejected e) ->
  settled (settleElement promises st j) = settleOnce (settled st) (Rejected e).
Proof. intros H. unfold settleElement. rewrite H. reflexivity. Qed.

(** While fewer elements have settled than remain to be counted, and none
    of them is a rejection, the result is pending. *)
Lemma pending_while_counting promises sched :
  forall st,
    Forall (fun i => forall e, promises !! i <> Some (Rejected e)) sched ->
    settled st = None ->
    length sched < remainingElementsCount st ->
    settled (fold_left (settleElement promises) sched st) = None.
Proof.
  induction sched as [|i sched IH]; intros st Hok Hs Hlen; [exact Hs|].
  inversion Hok as [|? ? Hi Hok']; subst. simpl in *.
  apply IH; [exact Hok'| |]; unfold settleElement;
    destruct (promises !! i) as [[x|e|]|]; simpl; try assumption; try lia.
  - destruct (Nat.eqb_spec (remainingElementsCount st - 1) 0); [lia | exact Hs].
  - exfalso. exact (Hi e eq_refl).
Qed.

Lemma lookup_map_Fulfilled (xs : list A) i :
  map Fulfilled xs !! i = Fulfilled <$> (xs !! i).
Proof.
  revert i. induction xs as [|x xs IH]; intros [|i]; simpl; try reflexivity. apply IH.
Qed.

(** When every promise is fulfilled, each settlement stores its value and
    counts down by one. *)
Lemma fulfilled_run (xs : list A) sched :
  forall st,
    Forall (fun i => i < length xs) sched ->
    length (values st) = length xs ->
    let st' := fold_left (settleElement (map Fulfilled xs)) sched st in
    remainingElementsCount st' = remainingElementsCount st - length sched
    /\ length (values st') = length xs
    /\ forall k, values st' !! k
                 = if decide (k ∈ sched) then Some <$> (xs !! k) else values st !! k.
Proof.
  induction sched as [|i sched IH]; intros st Hlt Hlen; cbv zeta; simpl.
  - split; [lia|]. split; [exact Hlen|]. intros k.
    destruct (decide (k ∈ [])) as [Hin|_]; [inversion Hin | reflexivity].
  - inversion Hlt as [|? ? Hi Hlt']; subst.
    destruct (lookup_lt_is_Some_2 xs i Hi) as [x Hx].
    assert (settleElement (map Fulfilled xs) st i
            = mkAllState (<[i := Some x]> (values st)) (remainingElementsCount st - 1)
                (if Nat.eqb (remainingElementsCount st - 1) 0
                 then settleOnce (settled st)
                        (Fulfilled (omap id (<[i := Some x]> (values st))))
                 else settled st)) as E.
    { unfold settleElement. rewrite lookup_map_Fulfilled, Hx. reflexivity. }
    rewrite E. clear E.
    match goal with
    | |- context [fold_left _ sched ?st1] =>
        assert (length (values st1) = length xs) as Hlen1
          by (simpl; rewrite length_insert; exact Hlen);
        specialize (IH st1 Hlt' Hlen1)
    end.
    cbv zeta in IH. simpl in IH. destruct IH as (Hr & Hl & Hv).
    split; [lia|]. split; [exact Hl|]. intros k. rewrite Hv.
    destruct (decide (k ∈ sched)) as [Hin|Hnin].
    + rewrite decide_True by (right; exact Hin). reflexivity.
    + destruct (decide (k = i)) as [->|Hne].
      * rewrite decide_True by left.
        rewrite list_lookup_insert_eq by lia. rewrite Hx. reflexivity.
      * rewrite decide_False by (intros Hin; apply elem_of_cons in Hin; tauto).
        rewrite list_lookup_insert_ne by congruence. reflexivity.
Qed.

Lemma omap_id_Some (xs : list A) : omap id (map Some xs) = xs.
Proof. induction xs as [|x xs IH]; [reflexivity|]. cbn. f_equal. exact IH. Qed.

Lemma Promise_all_empty sched : Promise_all sched (@nil (Promise A)) = Fulfilled [].
Proof.
  unfold Promise_all. simpl. rewrite (settled_stable [] sched _ (Fulfilled [])); reflexivity.
Qed.

(** All fulfilled: the values, in the order of the input, whatever the
    order of the settlements. *)
Lemma Promise_all_fulfilled (xs : list A) sched :
  Permutation sched (seq 0 (length xs)) ->
  Promise_all sched (map Fulfilled xs) = Fulfilled xs.
Proof.
  intros Hp. destruct (decide (length xs = 0)) as [Hz|Hn].
  { apply nil_length_inv in Hz. subst xs. apply Promise_all_empty. }
  assert (length sched = length xs) as Hlen
    by (rewrite (Permutation_length Hp), length_seq; reflexivity).
  assert (forall i, i ∈ sched <-> i < length xs) as Hmem.
  { intros i. rewrite list_elem_of_In. rewrite (Permutation_in' eq_refl Hp).
    rewrite in_seq. lia. }
  destruct sched as [|i0 sched0] using rev_ind; [simpl in Hlen; lia|]. clear IHsched0.
  rewrite length_app in Hlen. simpl in Hlen.
  unfold Promise_all. rewrite fold_left_app, length_map.
  set (init := mkAllState (replicate (length xs) None) (length xs)
                 (if Nat.eqb (length xs) 0 then Some (Fulfilled []) else None)).
  assert (settled init = None) as Hinit.
  { simpl. destruct (Nat.eqb_spec (length xs) 0); [lia | reflexivity]. }
  assert (Forall (fun i => i < length xs) sched0) as Hlt.
  { apply List.Forall_forall. intros i Hi. apply Hmem, elem_of_app. left.
    apply list_elem_of_In. exact Hi. }
  pose proof (fulfilled_run xs sched0 init Hlt ltac:(simpl; apply length_replicate))
    as (Hr & Hl & Hv).
  assert (settled (fold_left (settleElement (map Fulfilled xs)) sched0 init) = None) as Hs.
  { apply pending_while_counting; [|exact Hinit|simpl; lia].
    apply List.Forall_forall. intros i _ e. rewrite lookup_map_Fulfilled.
    destruct (xs !! i); discriminate. }
  set (st := fold_left (settleElement (map Fulfilled xs)) sched0 init) in *.
  assert (i0 < length xs) as Hi0 by (apply Hmem, elem_of_app; right; left).
  destruct (lookup_lt_is_Some_2 xs i0 Hi0) as [x Hx].
  simpl. unfold settleElement. rewrite lookup_map_Fulfilled, Hx. simpl.
  simpl in Hr. rewrite Hr, Hs.
  replace (length xs - length sched0 - 1) with 0 by lia. simpl.
  f_equal. transitivity (omap id (map Some xs)); [|apply omap_id_Some]. f_equal.
  apply list_eq. intros k.
  destruct (decide (k = i0)) as [->|Hne].
  - rewrite list_lookup_insert_eq by lia.
    change (map Some xs) with (Some <$> xs). rewrite list_lookup_fmap, Hx. reflexivity.
  - rewrite list_lookup_insert_ne by congruence. rewrite Hv.
    change (map Some xs) with (Some <$> xs). rewrite list_lookup_fmap.
    destruct (decide (k ∈ sched0)) as [Hin|Hnin]; [reflexivity|].
    destruct (decide (k < length xs)) as [Hk|Hk].
    + exfalso. apply Hmem in Hk. apply elem_of_app in Hk.
      destruct Hk as [Hk|Hk]; [contradiction|].
      apply list_elem_of_singleton in Hk. contradiction.
    + rewrite (lookup_ge_None_2 xs k) by lia. simpl.
      apply lookup_ge_None_2. simpl. rewrite length_replicate. lia.
Qed.

(** One rejection: the result is rejected, with the error of the first
    promise to reject in the order of the settlements. *)
Lemma Promise_all_rejected promises sched i e :
  Permutation sched (seq 0 (length promises)) ->
  promises !! i = Some (Rejected e) ->
  exists j e',
    promises !! j = Some (Rejected e')
    /\ Promise_all sched promises = Rejected e'.
Proof.
  intros Hp Hi.
  assert (length sched = length promises) as Hlen
    by (rewrite (Permutation_length Hp), length_seq; reflexivity).
  assert (In i sched) as Hin.
  { apply (Permutation_in' eq_refl Hp), in_seq.
    apply lookup_lt_Some in Hi. lia. }
  assert (exists done j e' rest,
             sched = done ++ j :: rest
             /\ promises !! j = Some (Rejected e')
             /\ Forall (fun k => forall e0, promises !! k <> Some (Rejected e0)) done)
    as (done & j & e' & rest & -> & Hj & Hdone).
  { clear Hp Hlen. induction sched as [|k sched IH]; [contradiction|].
    destruct (promises !! k) as [[x|e0|]|] eqn:Ek.
    2: { exists [], k, e0, sched. repeat split; [exact Ek | constructor]. }
    all: destruct Hin as [->|Hin]; [congruence|];
      destruct (IH Hin) as (done & j & e' & rest & -> & Hj & Hdone);
      exists (k :: done), j, e', rest; repeat split; [exact Hj|];
      constructor; [intros e0; congruence | exact Hdone]. }
  exists j, e'. split; [exact Hj|].
  unfold Promise_all. rewrite fold_left_app.
  set (init := mkAllState (replicate (length promises) None) (length promises)
                 (if Nat.eqb (length promises) 0 then Some (Fulfilled []) else None)).
  cbn [fold_left].
  rewrite length_app in Hlen. simpl in Hlen.
  assert (settled init = None) as Hinit.
  { simpl. destruct (Nat.eqb_spec (length promises) 0); [lia | reflexivity]. }
  pose proof (pending_while_counting promises done init Hdone Hinit ltac:(simpl; lia)) as Hs.
  rewrite (settled_stable promises rest _ (Rejected e')); [reflexivity|].
  rewrite (settleElement_rejected _ _ _ _ Hj), Hs. reflexivity.
Qed.

End PromiseAll.

(** ** The batch of item requests *)

Lemma fetchTopStories_ids fetch sched count res body ids :
  fetch topStoriesUrl = Fulfilled res ->
  json res = Fulfilled body ->
  decodeToPromise (t.array ID_V) (asArray asNumber) body = Fulfilled ids ->
  fetchTopStories fetch sched count
  = Promise_all sched (map (fun id => fetchItem fetch id) (slice ids 0 count)).
Proof.
  intros Hf Hj Hd. unfold fetchTopStories. rewrite Hf. cbn [mbind Promise_bind].
  rewrite Hj. cbn [mbind Promise_bind]. rewrite Hd. reflexivity.
Qed.

Lemma slice_from_start {A} (l : list A) (count : Z) :
  slice l 0 count
  = firstn (if (count <? 0)%Z then length l - Z.to_nat (- count)
            else Nat.min (Z.to_nat count) (length l)) l.
Proof.
  unfold slice, relativeIndex. simpl (0 <? 0)%Z. cbv iota. simpl.
  rewrite Nat.sub_0_r. destruct (count <? 0)%Z eqn:E; [|reflexivity].
  apply Z.ltb_lt in E. f_equal. lia.
Qed.

Lemma all_fulfilled {A B} (f : A -> Promise B) (l : list A) (items : list B) :
  Forall2 (fun x item => f x = Fulfilled item) l items ->
  map f l = map Fulfilled items.
Proof.
  induction 1 as [|x item l items Hx _ IH]; [reflexivity|].
  simpl. rewrite Hx, IH. reflexivity.
Qed.

(** C9: once the list of IDs is decoded, whatever the order [sched] in
    which the item requests settle: when every request of the batch is
    fulfilled, [fetchTopStories] is fulfilled with the items in the order
    of the IDs; when one request or decoding is rejected, the whole batch
    is rejected, with the error of one of its requests, and no item is
    returned. *)
Lemma batch_fulfilled (fetch : Fetch) (sched : list nat) (selected : list Z)
    (items : list Item) :
  Permutation sched (seq 0 (length selected)) ->
  Forall2 (fun id item => fetchItem fetch id = Fulfilled item) selected items ->
  Promise_all sched (map (fun id => fetchItem fetch id) selected) = Fulfilled items.
Proof.
  intros Hp H2. rewrite (all_fulfilled (fun id => fetchItem fetch id) _ _ H2).
  apply Promise_all_fulfilled.
  rewrite <- (Forall2_length _ _ _ H2). exact Hp.
Qed.

Theorem fetchTopStories_keeps_order (fetch : Fetch) (sched : list nat) (count : Z)
    (res : Response) (body : JsValue) (ids : list Z) :
  fetch topStoriesUrl = Fulfilled res ->
  json res = Fulfilled body ->
  decodeToPromise (t.array ID_V) (asArray asNumber) body = Fulfilled ids ->
  Permutation sched (seq 0 (length (slice ids 0 count))) ->
  (forall items,
      Forall2 (fun id item => fetchItem fetch id = Fulfilled item)
        (slice ids 0 count) items ->
      fetchTopStories fetch sched count = Fulfilled items)
  /\ (forall id e,
        In id (slice ids 0 count) ->
        fetchItem fetch id = Rejected e ->
        exists id' e',
          In id' (slice ids 0 count)
          /\ fetchItem fetch id' = Rejected e'
          /\ fetchTopStories fetch sched count = Rejected e').
Proof.
  intros Hf Hj Hd Hp. rewrite (fetchTopStories_ids _ _ _ _ _ _ Hf Hj Hd).
  set (selected := slice ids 0 count) in *. split.
  - intros items H2. apply batch_fulfilled; assumption.
  - intros id e Hin He.
    apply list_elem_of_In, list_elem_of_lookup in Hin. destruct Hin as [i Hi].
    assert (map (fun id => fetchItem fetch id) selected !! i = Some (Rejected e)) as Hr.
    { change (map (fun id => fetchItem fetch id) selected)
        with ((fun id => fetchItem fetch id) <$> selected).
      rewrite list_lookup_fmap, Hi. simpl. rewrite He. reflexivity. }
    destruct (Promise_all_rejected _ sched i e
                ltac:(rewrite length_map; exact Hp) Hr) as (j & e' & Hj' & Hall).
    change (map (fun id => fetchItem fetch id) selected)
      with ((fun id => fetchItem fetch id) <$> selected) in Hj'.
    rewrite list_lookup_fmap in Hj'.
    destruct (selected !! j) as [id'|] eqn:Ej; [|discriminate].
    simpl in Hj'. injection Hj' as Hj'.
    exists id', e'. repeat split; [|exact Hj'|exact Hall].
    apply list_elem_of_In, list_elem_of_lookup. eauto.
Qed.

Lemma fetchTopStories_keeps_order_witness :
  exists items,
    fetchTopStories exampleNetwork [1; 0] 15 = Fulfilled items /\ length items = 2.
Proof.
  destruct (fetchTopStories_keeps_order exampleNetwork [1; 0] 15
              (mkResponse (Fulfilled (JArray [JNumber 1; JNumber 2])))
              (JArray [JNumber 1; JNumber 2]) [1%Z; 2%Z]
              eq_refl eq_refl eq_refl (perm_swap 0 1 [])) as [H _].
  eexists. split.
  - apply H. repeat (constructor; [reflexivity|]). constructor.
  - reflexivity.
Defined.

Example fetchTopStories_one_failure :
  fetchTopStories
    (fun url => if String.eqb url (itemUrl 2) then Rejected (mkError "timeout")
                else exampleNetwork url)
    [0; 1] 15
  = Rejected (mkError "timeout").
Proof. reflexivity. Qed.

(** C10: [fetchTopStories] requests the items of [ids.slice(0, count)] and
    of no other ID: for [count >= 0] the first [min count (length ids)]
    IDs, none for [count = 0]; for [count < 0] all the IDs but the last
    [-count]; when all the requests are fulfilled it returns their items. *)
Theorem fetchTopStories_takes_slice (fetch : Fetch) (sched : list nat) (count : Z)
    (res : Response) (body : JsValue) (ids : list Z) :
  fetch topStoriesUrl = Fulfilled res ->
  json res = Fulfilled body ->
  decodeToPromise (t.array ID_V) (asArray asNumber) body = Fulfilled ids ->
  let n := if (count <? 0)%Z then length ids - Z.to_nat (- count)
           else Nat.min (Z.to_nat count) (length ids) in
  fetchTopStories fetch sched count
  = Promise_all sched (map (fun id => fetchItem fetch id) (firstn n ids))
  /\ length (firstn n ids) = n
  /\ (Permutation sched (seq 0 n) ->
      forall items,
        Forall2 (fun id item => fetchItem fetch id = Fulfilled item) (firstn n ids) items ->
        fetchTopStories fetch sched count = Fulfilled items)
  /\ (count = 0%Z -> fetchTopStories fetch sched count = Fulfilled []).
Proof.
  intros Hf Hj Hd n.
  pose proof (fetchTopStories_ids _ sched count _ _ _ Hf Hj Hd) as E.
  rewrite slice_from_start in E. fold n in E.
  assert (length (firstn n ids) = n) as Hn.
  { rewrite length_firstn. subst n. destruct (count <? 0)%Z; lia. }
  split; [exact E|]. split; [exact Hn|]. split.
  - intros Hp items H2. rewrite E. apply batch_fulfilled; [|exact H2].
    rewrite Hn. exact Hp.
  - intros ->. rewrite E. subst n. simpl. apply Promise_all_empty.
Qed.

Lemma fetchTopStories_takes_slice_witness :
  fetchTopStories exampleNetwork [0] (-1)
  = Promise_all [0] (map (fun id => fetchItem exampleNetwork id) [1%Z]).
Proof.
  exact (proj1 (fetchTopStories_takes_slice exampleNetwork [0] (-1)
                  (mkResponse (Fulfilled (JArray [JNumber 1; JNumber 2])))
                  (JArray [JNumber 1; JNumber 2]) [1%Z; 2%Z] eq_refl eq_refl eq_refl)).
Defined.

Example negative_count :
  fetchTopStories exampleNetwork [0] (-1)
  = Fulfilled
      [ItemStory
         (mkStory 3 None (Some "http://example.com/")
            (mkItemCommon "pg" 1 1160418111 None None (Some [2%Z; 3%Z]))
            (mkTopLevel 10 "Hello"))].
Proof. reflexivity. Qed.

(** ** The client *)

(** C1, as stated, fails: with every request rejected the message is
    printed to standard error, and the process ends with code 0. *)
Lemma offline_exit_code_is_zero :
  fetchTopStories offline [] 15 = Rejected (mkError "network down")
  /\ stderr (fst (main offline [])) = ["network down"]
  /\ exitCode offline [] = Some 0%Z.
Proof. repeat split. Qed.

(** C1, amended: when the pipeline is rejected with an error, [main]
    prints the message of that error to standard error, prints nothing to
    standard output, and its promise is fulfilled: the process ends with
    exit code 0. *)
Theorem main_prints_the_error (fetch : Fetch) (sched : list nat) (err : Error) :
  fetchTopStories fetch sched 15 = Rejected err ->
  main fetch sched = (mkConsole [] [message err], Fulfilled tt)
  /\ exitCode fetch sched = Some 0%Z.
Proof.
  intros H. unfold exitCode, main. rewrite H. split; reflexivity.
Qed.

Lemma main_prints_the_error_witness :
  main offline [] = (mkConsole [] ["network down"], Fulfilled tt)
  /\ exitCode offline [] = Some 0%Z.
Proof.
  apply (main_prints_the_error offline [] (mkError "network down")). reflexivity.
Defined.

(** Every failure before the batch rejects [fetchTopStories] with its own
    error: the request of the list, the reading of its body, its
    decoding. *)
Lemma fetch_error_propagates fetch sched count err :
  fetch topStoriesUrl = Rejected err ->
  fetchTopStories fetch sched count = Rejected err.
Proof. intros H. unfold fetchTopStories. rewrite H. reflexivity. Qed.

Lemma json_error_propagates fetch sched count res err :
  fetch topStoriesUrl = Fulfilled res ->
  json res = Rejected err ->
  fetchTopStories fetch sched count = Rejected err.
Proof.
  intros Hf H. unfold fetchTopStories. rewrite Hf. cbn [mbind Promise_bind].
  rewrite H. reflexivity.
Qed.

Lemma ids_error_propagates fetch sched count res body es :
  fetch topStoriesUrl = Fulfilled res ->
  json res = Fulfilled body ->
  t.decode (t.array ID_V) body = t.Left es ->
  fetchTopStories fetch sched count
  = Rejected (mkError (String.concat newline (Reporter.reporter (t.Left es)))).
Proof.
  intros Hf Hj H. unfold fetchTopStories. rewrite Hf. cbn [mbind Promise_bind].
  rewrite Hj. cbn [mbind Promise_bind]. unfold decodeToPromise. rewrite H. reflexivity.
Qed.

Lemma main_never_rejects fetch sched :
  forall e, snd (main fetch sched) <> Rejected e.
Proof.
  intros e. unfold main. destruct (fetchTopStories fetch sched 15); discriminate.
Qed.

(** ** The decoder and the static types *)

Lemma decodeToPromise_view {T} (validator : t.Type_) (typeOf : JsValue -> option T) u :
  Sound validator ->
  (forall x, t.is_ validator x = hasView (typeOf x)) ->
  decodeToPromise validator typeOf u
  = match typeOf u with
    | Some x => Fulfilled x
    | None => Rejected (mkError (String.concat newline
                                   (Reporter.reporter (t.decode validator u))))
    end.
Proof.
  intros Hs Hv. unfold decodeToPromise. pose proof (Hs u (t.getDefaultContext validator)) as H.
  unfold t.decode. destruct (t.validate validator u _) as [es|v].
  - destruct H as [_ H]. rewrite Hv in H. destruct (typeOf u); [discriminate|reflexivity].
  - destruct H as [-> H]. rewrite Hv in H. destruct (typeOf u); [reflexivity|discriminate].
Qed.

(** X1: the decoder promise of [ItemV] is fulfilled with an item exactly
    when the value has that item as its view at the type [Item]: the
    validator accepts the values of the static type, and only those. *)
Theorem ItemV_accepts_exactly_Item (u : JsValue) (item : Item) :
  decodeToPromise ItemV asItem u = Fulfilled item <-> asItem u = Some item.
Proof.
  rewrite (decodeToPromise_view ItemV asItem u Sound_ItemV is_ItemV).
  destruct (asItem u); split; intros H; try discriminate; congruence.
Qed.

Lemma is_IDs u : t.is_ (t.array ID_V) u = hasView (asArray asNumber u).
Proof.
  destruct u; try reflexivity. symmetry. apply mapM_asNumber.
Qed.

Lemma asIDs_inv u ids : asArray asNumber u = Some ids <-> u = JArray (map JNumber ids).
Proof.
  split.
  - destruct u; try discriminate. simpl. intros H. f_equal.
    apply mapM_Some_1 in H. induction H as [|x n xs ns Hx _ IH]; [reflexivity|].
    destruct x; try discriminate. simpl in Hx. injection Hx as ->. simpl. f_equal. exact IH.
  - intros ->. simpl. apply mapM_Some_2.
    induction ids; constructor; [reflexivity | assumption].
Qed.

(** X2: the list of IDs is decoded to [ids] exactly when the JSON is the
    array of these numbers, in that order. *)
Theorem ids_round_trip (u : JsValue) (ids : list Z) :
  decodeToPromise (t.array ID_V) (asArray asNumber) u = Fulfilled ids
  <-> u = JArray (map JNumber ids).
Proof.
  rewrite (decodeToPromise_view _ (asArray asNumber) u Sound_IDs is_IDs).
  rewrite <- asIDs_inv.
  destruct (asArray asNumber u); split; intros H; try discriminate; congruence.
Qed.

(** ** The validator of a tag and the union *)

Lemma sound_decode_iff type u v :
  Sound type -> (t.decode type u = t.Right v <-> v = u /\ t.is_ type u = true).
Proof.
  intros Hs. split.
  - apply decode_Right, Hs.
  - intros [-> H]. apply decode_is; assumption.
Qed.

Lemma view_tag u :
  (forall x, asComment u = Some x -> getProp u "type" = JString "comment")
  /\ (forall x, asJob u = Some x -> getProp u "type" = JString "job")
  /\ (forall x, asPoll u = Some x -> getProp u "type" = JString "poll")
  /\ (forall x, asPollOpt u = Some x -> getProp u "type" = JString "pollopt")
  /\ (forall x, asStory u = Some x -> getProp u "type" = JString "story").
Proof.
  repeat split; intros x H;
    unfold asComment, asJob, asPoll, asPollOpt, asStory in H;
    destruct (asLiteral _ (getProp u "type")) as [[]|] eqn:E; try discriminate;
    apply asLiteral_Some in E; exact E.
Qed.

Ltac variant_view Htag :=
  match goal with
  | |- hasView ?view = _ =>
      let E := fresh "E" in
      destruct view eqn:E;
      [ rewrite (Htag _ eq_refl); reflexivity
      | destruct (getProp _ "type") as [ | | | |tag'| | ]; try reflexivity;
        match goal with
        | |- context [String.eqb tag' ?k] =>
            destruct (String.eqb_spec tag' k) as [->|];
            [ reflexivity | rewrite andb_false_r; reflexivity ]
        end ]
  end.

Lemma is_variant_view tag type u :
  In (tag, type) variants ->
  t.is_ type u
  = hasView (asItem u)
    && match getProp u "type" with
       | JString tag' => String.eqb tag' tag
       | _ => false
       end.
Proof.
  intros Hin. destruct u as [ | | | | | |d]; simpl in Hin;
    try (destruct Hin as [E|[E|[E|[E|[E|[]]]]]]; injection E as <- <-; reflexivity).
  destruct (view_tag (JObject d)) as (Hc & Hj & Hp & Ho & Hs).
  unfold asItem.
  destruct Hin as [E|[E|[E|[E|[E|[]]]]]]; injection E as <- <-.
  - rewrite is_CommentV. variant_view Hc.
  - rewrite is_JobV. variant_view Hj.
  - rewrite is_PollV. variant_view Hp.
  - rewrite is_PollOptV. variant_view Ho.
  - rewrite is_StoryV. variant_view Hs.
Qed.

(** X3: for each of the five tags, the validator of the tag accepts a
    value exactly when the union accepts it and its [type] is that tag;
    both return the same value. *)
Theorem variant_agrees_with_union (tag : string) (type : t.Type_) (u v : JsValue) :
  In (tag, type) variants ->
  t.decode type u = t.Right v
  <-> t.decode ItemV u = t.Right v /\ getProp u "type" = JString tag.
Proof.
  intros Hin.
  assert (Sound type) as Hs.
  { simpl in Hin. destruct Hin as [E|[E|[E|[E|[E|[]]]]]]; injection E as <- <-;
      auto using Sound_CommentV, Sound_JobV, Sound_PollV, Sound_PollOptV, Sound_StoryV. }
  rewrite (sound_decode_iff type u v Hs), (sound_decode_iff ItemV u v Sound_ItemV).
  rewrite (is_variant_view tag type u Hin), is_ItemV, andb_true_iff.
  destruct (getProp u "type") as [ | | | |tag'| | ];
    try (split; [intros (_ & _ & ?) | intros (_ & ?)]; discriminate).
  rewrite String.eqb_eq. split.
  - intros (-> & H & ->). auto.
  - intros ((-> & H) & E). injection E as ->. auto.
Qed.

Lemma variant_agrees_with_union_witness :
  t.decode ItemV exampleStory = t.Right exampleStory
  /\ getProp exampleStory "type" = JString "story".
Proof.
  apply (variant_agrees_with_union "story" StoryV exampleStory exampleStory).
  - simpl. tauto.
  - reflexivity.
Defined.

(** ** Titles *)

Lemma is_story u : t.is_ StoryV u = hasView (asStory u).
Proof. destruct u; try reflexivity. apply is_StoryV. Qed.

Lemma asItem_story u s : asItem u = Some (ItemStory s) <-> asStory u = Some s.
Proof.
  split.
  - unfold asItem. destruct (getProp u "type") as [ | | | |tag| | ]; try discriminate.
    repeat match goal with
           | |- context [if String.eqb tag ?k then _ else _] =>
               destruct (String.eqb tag k)
           end;
      try discriminate;
      match goal with
      | |- _ <$> ?view = _ -> _ => destruct view; simpl; intros H; congruence
      end.
  - intros H. destruct (view_tag u) as (_ & _ & _ & _ & Hs).
    unfold asItem. rewrite (Hs s H). simpl. rewrite H. reflexivity.
Qed.

(** X4: [fetchTitle] is fulfilled with a text exactly when [fetchItem] of
    the same ID is fulfilled with a story whose title is that text. *)
Theorem fetchTitle_is_the_title_of_the_story (fetch : Fetch) (storyId : Z) (text : string) :
  fetchTitle fetch storyId = Fulfilled text
  <-> exists story,
        fetchItem fetch storyId = Fulfilled (ItemStory story)
        /\ title (story_top story) = text.
Proof.
  unfold fetchTitle, fetchItem.
  destruct (fetch (itemUrl storyId)) as [res|e|]; cbn [mbind Promise_bind];
    try (split; [discriminate | intros (? & ? & _); discriminate]).
  destruct (json res) as [data|e|]; cbn [mbind Promise_bind];
    try (split; [discriminate | intros (? & ? & _); discriminate]).
  rewrite (decodeToPromise_view StoryV asStory data Sound_StoryV is_story).
  rewrite (decodeToPromise_view ItemV asItem data Sound_ItemV is_ItemV).
  destruct (asStory data) as [s|] eqn:Es.
  - apply asItem_story in Es. rewrite Es. cbn. split.
    + intros H. injection H as <-. eauto.
    + intros (s' & H & <-). injection H as <-. reflexivity.
  - split; [discriminate|]. intros (s' & H & _).
    destruct (asItem data) as [item|] eqn:Ei; [|discriminate].
    injection H as ->. apply asItem_story in Ei. congruence.
Qed.

(** ** A validator of one tag on an object of another *)

Lemma eqb_string_false u s : u <> JString s -> Js.eqb u (JString s) = false.
Proof.
  intros H. destruct (Js.eqb u (JString s)) eqn:E; [|reflexivity].
  apply eqb_string in E. contradiction.
Qed.

Ltac sound_members :=
  repeat (apply List.Forall_cons;
          [ cbn [fst];
            auto using Sound_CommentProps, Sound_JobProps, Sound_PollProps,
              Sound_PollOptProps, Sound_StoryProps, Sound_ItemCommonProps,
              Sound_TopLevelProps | ]);
  apply List.Forall_nil.

Lemma variant_tag_error tag type d :
  In (tag, type) variants ->
  lookupProp d "type" <> JString tag ->
  exists rest,
    t.decode type (JObject d)
    = t.Left (t.mkValidationError (lookupProp d "type")
                [t.mkEntry EmptyString (t.name type); t.mkEntry "type" (quoteString tag)]
              :: rest).
Proof.
  intros Hin Hne. apply eqb_string_false in Hne. unfold t.decode.
  simpl in Hin. destruct Hin as [E|[E|[E|[E|[E|[]]]]]]; injection E as <- <-.
  - eexists. etransitivity.
    { apply (validate_intersection_types
               [(CommentProps, @None string); (ItemCommonProps, Some "ItemCommon")] "Comment").
      sound_members. }
    cbn [concat map fst]. unfold CommentProps at 1. cbn [app flat_map].
    unfold propErrors at 1. cbn [fst snd t.validate t.literal]. rewrite Hne. reflexivity.
  - eexists. etransitivity.
    { apply (validate_intersection_types
               [(JobProps, @None string); (ItemCommonProps, Some "ItemCommon");
                (TopLevelProps, Some "TopLevel")] "Job").
      sound_members. }
    cbn [concat map fst]. unfold JobProps at 1. cbn [app flat_map].
    unfold propErrors at 1. cbn [fst snd t.validate t.literal]. rewrite Hne. reflexivity.
  - eexists. etransitivity.
    { apply (validate_intersection_types
               [(PollProps, @None string); (ItemCommonProps, Some "ItemCommon");
                (TopLevelProps, Some "TopLevel")] "Poll").
      sound_members. }
    cbn [concat map fst]. unfold PollProps at 1. cbn [app flat_map].
    unfold propErrors at 1. cbn [fst snd t.validate t.literal]. rewrite Hne. reflexivity.
  - eexists. etransitivity.
    { apply (validate_intersection_types [(PollOptProps, @None string)] "PollOpt").
      sound_members. }
    cbn [concat map fst]. unfold PollOptProps at 1. cbn [app flat_map].
    unfold propErrors at 1. cbn [fst snd t.validate t.literal]. rewrite Hne. reflexivity.
  - eexists. etransitivity.
    { apply (validate_intersection_types
               [(StoryProps, @None string); (ItemCommonProps, Some "ItemCommon");
                (TopLevelProps, Some "TopLevel")] "Story").
      sound_members. }
    cbn [concat map fst]. unfold StoryProps at 1. cbn [app flat_map].
    unfold propErrors at 1. cbn [fst snd t.validate t.literal]. rewrite Hne. reflexivity.
Qed.

Lemma append_nil_r s : s +:+ EmptyString = s.
Proof.
  induction s as [|a s IH]; [reflexivity|].
  change (String a s +:+ EmptyString) with (String a (s +:+ EmptyString)).
  rewrite IH. reflexivity.
Qed.

Lemma append_assoc s1 s2 s3 : (s1 +:+ s2) +:+ s3 = s1 +:+ (s2 +:+ s3).
Proof.
  induction s1 as [|a s1 IH]; [reflexivity|].
  change (String a ((s1 +:+ s2) +:+ s3) = String a (s1 +:+ (s2 +:+ s3))).
  rewrite IH. reflexivity.
Qed.

Lemma concat_head sep line lines :
  exists tail, String.concat sep (line :: lines) = line +:+ tail.
Proof.
  destruct lines as [|l ls].
  - exists EmptyString. rewrite append_nil_r. reflexivity.
  - eexists. reflexivity.
Qed.

Lemma tag_error_report {T} tag type (typeOf : JsValue -> option T) d :
  In (tag, type) variants ->
  lookupProp d "type" <> JString tag ->
  exists tail,
    decodeToPromise type typeOf (JObject d)
    = Rejected (mkError ("Expecting " +:+ quoteString tag
                         +:+ " at type but instead got: "
                         +:+ Reporter.jsToString (lookupProp d "type") +:+ "." +:+ tail)).
Proof.
  intros Hin Hne. destruct (variant_tag_error tag type d Hin Hne) as [rest E].
  unfold decodeToPromise. rewrite E.
  cbn [Reporter.reporter omap list_omap].
  change (Reporter.formatValidationError _)
    with (Some ("Expecting " +:+ quoteString tag
                +:+ " at type but instead got: "
                +:+ Reporter.jsToString (lookupProp d "type") +:+ ".")) at 1.
  cbv iota beta.
  destruct (concat_head newline
              ("Expecting " +:+ quoteString tag +:+ " at type but instead got: "
               +:+ Reporter.jsToString (lookupProp d "type") +:+ ".")
              (omap Reporter.formatValidationError rest)) as [tail Ht].
  exists tail. rewrite Ht.
  repeat rewrite append_assoc. reflexivity.
Qed.

(** X5: [fetchItemType] with the validator of one tag, on an object whose
    [type] is anything else, is rejected, and the report starts with the
    line that names the expected literal at [type] and what was found. *)
Theorem fetchItemType_rejects_other_tags (T : Type) (fetch : Fetch) (tag : string)
    (validator : t.Type_) (typeOf : JsValue -> option T) (id : Z)
    (res : Response) (d : list (string * JsValue)) :
  In (tag, validator) variants ->
  fetch (itemUrl id) = Fulfilled res ->
  json res = Fulfilled (JObject d) ->
  lookupProp d "type" <> JString tag ->
  exists tail,
    fetchItemType fetch validator typeOf id
    = Rejected (mkError ("Expecting " +:+ quoteString tag
                         +:+ " at type but instead got: "
                         +:+ Reporter.jsToString (lookupProp d "type") +:+ "." +:+ tail)).
Proof.
  intros Hin Hf Hj Hne. unfold fetchItemType. rewrite Hf. cbn [mbind Promise_bind].
  rewrite Hj. cbn [mbind Promise_bind]. apply tag_error_report; assumption.
Qed.

Lemma fetchItemType_rejects_other_tags_witness :
  exists tail,
    fetchItemType exampleNetwork StoryV asStory 2
    = Rejected (mkError ("Expecting " +:+ quoteString "story"
                         +:+ " at type but instead got: "
                         +:+ quoteString "comment" +:+ "." +:+ tail)).
Proof.
  apply (fetchItemType_rejects_other_tags Story exampleNetwork "story" StoryV asStory 2
           (mkResponse (Fulfilled exampleComment))
           [ ("by", JString "norvig"); ("id", JNumber 2); ("parent", JNumber 1);
             ("text", JString "Nice."); ("time", JNumber 1160418200);
             ("type", JString "comment") ]).
  - simpl. tauto.
  - reflexivity.
  - reflexivity.
  - discriminate.
Defined.



(** X7: on a decoded item, [getTitleCowboyStyle] returns the [title] of
    the JSON when the tag is story, job or poll and nothing otherwise;
    [getTitle] returns it for a story only; whenever [getTitle] returns a
    title, [getTitleCowboyStyle] returns the same one. *)
Theorem titles_of_a_decoded_item (u : JsValue) (item : Item) :
  decodeToPromise ItemV asItem u = Fulfilled item ->
  exists tag,
    getProp u "type" = JString tag
    /\ (getTitleCowboyStyle item
        = if existsb (String.eqb tag) ["story"; "job"; "poll"]
          then asString (getProp u "title") else None)
    /\ (getTitle item
        = if String.eqb tag "story" then asString (getProp u "title") else None)
    /\ (forall text, getTitle item = Some text -> getTitleCowboyStyle item = Some text).
Proof.
  rewrite (decodeToPromise_view ItemV asItem u Sound_ItemV is_ItemV).
  destruct (asItem u) as [item'|] eqn:Ei; [|discriminate].
  intros H. injection H as ->.
  unfold asItem in Ei. destruct (getProp u "type") as [ | | | |tag| | ]; try discriminate.
  exists tag. split; [reflexivity|]. revert Ei.
  destruct (String.eqb_spec tag "comment") as [->|H1].
  { variant E (asComment u). repeat split. discriminate. }
  destruct (String.eqb_spec tag "job") as [->|H2].
  { variant E (asJob u). repeat split. discriminate. }
  destruct (String.eqb_spec tag "poll") as [->|H3].
  { variant E (asPoll u). repeat split. discriminate. }
  destruct (String.eqb_spec tag "pollopt") as [->|H4].
  { variant E (asPollOpt u). repeat split. discriminate. }
  destruct (String.eqb_spec tag "story") as [->|H5].
  { variant E (asStory u). repeat split. auto. }
  discriminate.
Qed.

Lemma titles_of_a_decoded_item_witness :
  exists item tag,
    asItem exampleStory = Some item
    /\ getProp exampleStory "type" = JString tag
    /\ getTitleCowboyStyle item
       = (if existsb (String.eqb tag) ["story"; "job"; "poll"]
          then asString (getProp exampleStory "title") else None).
Proof.
  destruct (asItem exampleStory) as [item|] eqn:E; [|discriminate E].
  destruct (titles_of_a_decoded_item exampleStory item) as (tag & Ht & Hc & _).
  - vm_compute in E. injection E as <-. reflexivity.
  - exists item, tag. auto.
Defined.

(** X8: every value [StoryV] accepts has a view at the type [Story]; the
    union decodes the same value to that story, and [formatStory] prints
    for it what [formatItem] prints: the title of the JSON in quotes,
    [" submitted by "] and its author. *)
Theorem formatStory_agrees_with_formatItem (u v : JsValue) :
  t.decode StoryV u = t.Right v ->
  exists story,
    asStory v = Some story
    /\ decodeToPromise ItemV asItem u = Fulfilled (ItemStory story)
    /\ formatItem (ItemStory story) = formatStory story
    /\ exists text author,
         getProp v "title" = JString text
         /\ getProp v "by" = JString author
         /\ formatStory story = dquote +:+ text +:+ dquote +:+ " submitted by " +:+ author.
Proof.
  intros H. apply (decode_Right _ _ _ Sound_StoryV) in H. destruct H as [-> H].
  rewrite is_story in H. destruct (asStory u) as [story|] eqn:Es; [|discriminate].
  exists story. split; [reflexivity|]. split.
  - rewrite (decodeToPromise_view ItemV asItem u Sound_ItemV is_ItemV).
    apply asItem_story in Es. rewrite Es. reflexivity.
  - split; [reflexivity|]. unfold asStory in Es. simplify_option_eq. fields.
    eexists _, _. repeat split; eassumption.
Qed.

Lemma formatStory_agrees_with_formatItem_witness :
  exists story,
    asStory exampleStory = Some story
    /\ decodeToPromise ItemV asItem exampleStory = Fulfilled (ItemStory story)
    /\ formatItem (ItemStory story) = formatStory story
    /\ exists text author,
         getProp exampleStory "title" = JString text
         /\ getProp exampleStory "by" = JString author
         /\ formatStory story = dquote +:+ text +:+ dquote +:+ " submitted by " +:+ author.
Proof.
  apply (formatStory_agrees_with_formatItem exampleStory exampleStory). reflexivity.
Defined.

(** ** A required property that is missing *)

Lemma lookupProp_deleteProp_eq o k : lookupProp (deleteProp o k) k = JUndefined.
Proof.
  induction o as [|[k0 v0] o IH]; simpl; [reflexivity|].
  destruct (String.eqb_spec k k0) as [->|Hk]; [exact IH|].
  simpl. destruct (String.eqb_spec k k0); [contradiction | exact IH].
Qed.

Lemma lookupProp_deleteProp_ne o k k' :
  k' <> k -> lookupProp (deleteProp o k) k' = lookupProp o k'.
Proof.
  intros Hne. induction o as [|[k0 v0] o IH]; simpl; [reflexivity|].
  destruct (String.eqb_spec k k0) as [->|Hk].
  - rewrite IH. destruct (String.eqb_spec k' k0); [contradiction | reflexivity].
  - simpl. rewrite IH. reflexivity.
Qed.

Lemma declaredProps_tag tag p : In p (declaredProps tag) -> In tag ItemTags.
Proof.
  unfold declaredProps. rewrite ItemTags_eq. simpl.
  repeat match goal with
         | |- context [if String.eqb tag ?k then _ else _] =>
             destruct (String.eqb_spec tag k) as [->|?]; [tauto|]
         end.
  contradiction.
Qed.

Lemma flat_map_nil_inv {A B} (f : A -> list B) l :
  flat_map f l = [] -> forall x, In x l -> f x = [].
Proof.
  induction l as [|y l IH]; simpl; [contradiction|].
  intros H x [<-|Hin]; apply app_eq_nil in H; [tauto | apply IH; tauto].
Qed.

Lemma Forall_flat_map_intro {A B} (P : B -> Prop) (f : A -> list B) l :
  (forall x, In x l -> Forall P (f x)) -> Forall P (flat_map f l).
Proof.
  induction l as [|y l IH]; simpl; intros H; [constructor|].
  apply Forall_app. split; [apply H; left; reflexivity|].
  apply IH. intros x Hx. apply H. right. exact Hx.
Qed.

(** X9: take an object that [ItemV] accepts and delete one declared
    property other than [type] whose validator rejects [undefined], that
    is a property that is not optional: decoding fails, and every error of
    the report is located at that property, under the validator of the
    tag.  Nothing else is reported. *)
Theorem missing_required_property (d : list (string * JsValue)) (v : JsValue)
    (tag k : string) (type : t.Type_) :
  t.decode ItemV (JObject d) = t.Right v ->
  lookupProp d "type" = JString tag ->
  In (k, type) (declaredProps tag) ->
  k <> "type" ->
  t.is_ type JUndefined = false ->
  exists i variant es,
    t.tagValue2Index "type" [CommentV; JobV; PollV; PollOptV; StoryV] 0 tag
    = Some (i, variant)
    /\ t.decode ItemV (JObject (deleteProp d k)) = t.Left es
    /\ es <> []
    /\ Forall (fun e =>
                 exists nm rest,
                   t.context e
                   = t.appendContext (t.getDefaultContext ItemV) (natToString i) variant
                     ++ [t.mkEntry k nm] ++ rest) es.
Proof.
  intros Hdec Htag Hin Hk Hreq.
  pose proof (declaredProps_tag tag _ Hin) as Htags.
  set (root := t.getDefaultContext ItemV).
  destruct (validate_ItemV_variant d tag root Htag Htags) as (i & variant & Hidx & Hval).
  assert (lookupProp (deleteProp d k) "type" = JString tag) as Htag'
    by (rewrite lookupProp_deleteProp_ne by congruence; exact Htag).
  destruct (validate_ItemV_variant (deleteProp d k) tag root Htag' Htags)
    as (i' & variant' & Hidx' & Hval').
  rewrite Hidx in Hidx'. injection Hidx' as <- <-.
  set (c := t.appendContext root (natToString i) variant) in *.
  unfold t.decode in Hdec. fold root in Hdec. rewrite Hval in Hdec.
  assert (flat_map (propErrors d c) (declaredProps tag) = []) as Hok
    by (destruct (flat_map _ (declaredProps tag)); [reflexivity | discriminate]).
  pose proof (Sound_declaredProps tag) as Hs. pose proof (Located_declaredProps tag) as Hl.
  rewrite List.Forall_forall in Hs, Hl.
  assert (forall p, In p (declaredProps tag) ->
            Forall (fun e => exists nm rest, t.context e = c ++ [t.mkEntry k nm] ++ rest)
              (propErrors (deleteProp d k) c p)) as Hloc.
  { intros [k' type'] Hp. unfold propErrors. cbn [fst snd].
    destruct (String.eqb_spec k' k) as [->|Hne].
    - destruct (t.validate type' _ _) as [es|x] eqn:E; [|constructor]. simpl.
      specialize (Hl _ Hp _ _ _ E). eapply Forall_impl; [exact Hl|].
      intros e [rest Hr]. exists (t.name type'), rest. rewrite Hr.
      unfold t.appendContext. rewrite <- app_assoc. reflexivity.
    - rewrite lookupProp_deleteProp_ne by exact Hne.
      pose proof (flat_map_nil_inv _ _ Hok _ Hp) as E. unfold propErrors in E.
      cbn [fst snd] in E. rewrite E. constructor. }
  pose proof (Forall_flat_map_intro _ _ _ Hloc) as Hall.
  assert (flat_map (propErrors (deleteProp d k) c) (declaredProps tag) <> []) as Hne.
  { intros E. pose proof (flat_map_nil_inv _ _ E _ Hin) as E'.
    unfold propErrors in E'. cbn [fst snd] in E'.
    rewrite lookupProp_deleteProp_eq in E'.
    specialize (Hs _ Hin JUndefined (t.appendContext c k type)). cbn [snd] in Hs.
    destruct (t.validate type JUndefined (t.appendContext c k type)) as [es|x].
    - simpl in E'. destruct Hs. contradiction.
    - destruct Hs. congruence. }
  unfold t.decode. fold root. rewrite Hval'.
  destruct (flat_map (propErrors (deleteProp d k) c) (declaredProps tag)) as [|e es];
    [congruence|].
  exists i, variant, (e :: es). auto.
Qed.

Lemma missing_required_property_witness :
  exists i variant es,
    t.tagValue2Index "type" [CommentV; JobV; PollV; PollOptV; StoryV] 0 "story"
    = Some (i, variant)
    /\ t.decode ItemV (JObject (deleteProp exampleStoryProps "title")) = t.Left es
    /\ es <> []
    /\ Forall (fun e =>
                 exists nm rest,
                   t.context e
                   = t.appendContext (t.getDefaultContext ItemV) (natToString i) variant
                     ++ [t.mkEntry "title" nm] ++ rest) es.
Proof.
  apply (missing_required_property exampleStoryProps exampleStory "story" "title" t.string).
  - reflexivity.
  - reflexivity.
  - simpl. tauto.
  - discriminate.
  - reflexivity.
Defined.

(** ** The excerpt *)

Lemma length_append s1 s2 :
  String.length (s1 +:+ s2) = String.length s1 + String.length s2.
Proof.
  induction s1 as [|a s1 IH]; [reflexivity|].
  change (S (String.length (s1 +:+ s2)) = S (String.length s1 + String.length s2)).
  rewrite IH. reflexivity.
Qed.

Lemma length_substring_prefix n s :
  String.length (substring 0 n s) = Nat.min n (String.length s).
Proof.
  revert n. induction s as [|a s IH]; intros [|n]; simpl; try reflexivity.
  rewrite IH. reflexivity.
Qed.

Lemma substring_append_prefix p s : substring 0 (String.length p) (p +:+ s) = p.
Proof.
  induction p as [|a p IH].
  - simpl. destruct s; reflexivity.
  - change (String a (substring 0 (String.length p) (p +:+ s)) = String a p).
    rewrite IH. reflexivity.
Qed.

Lemma excerptOf_long text :
  60 < String.length text -> excerptOf text = substring 0 60 text +:+ "...".
Proof.
  intros H. rewrite excerptOf_spec. unfold specExcerpt.
  destruct (Nat.leb_spec (String.length text) 60); [lia | reflexivity].
Qed.

Lemma excerptOf_short text : String.length text <= 60 -> excerptOf text = text.
Proof.
  intros H. rewrite excerptOf_spec. unfold specExcerpt.
  destruct (Nat.leb_spec (String.length text) 60); [reflexivity | lia].
Qed.

(** X10: the excerpt of a text of at most 60 characters has the length of
    the text, any other excerpt has 63 characters; so no excerpt is longer
    than 63, and the excerpt of a text of 61 or 62 characters is longer
    than the text. *)
Theorem excerptOf_length (text : string) :
  String.length (excerptOf text)
  = (if Nat.leb (String.length text) 60 then String.length text else 63)
  /\ String.length (excerptOf text) <= 63
  /\ (String.length text = 61 \/ String.length text = 62 ->
      String.length text < String.length (excerptOf text)).
Proof.
  destruct (Nat.leb_spec (String.length text) 60) as [H|H].
  - rewrite (excerptOf_short text H). repeat split; lia.
  - rewrite (excerptOf_long text H), length_append, length_substring_prefix.
    simpl String.length. repeat split; lia.
Qed.

(** X11: the excerpt of an excerpt is that excerpt. *)
Theorem excerptOf_idempotent (text : string) :
  excerptOf (excerptOf text) = excerptOf text.
Proof.
  destruct (Nat.le_gt_cases (String.length text) 60) as [H|H].
  - rewrite (excerptOf_short text H). apply excerptOf_short, H.
  - rewrite (excerptOf_long text H).
    assert (String.length (substring 0 60 text) = 60) as Hp
      by (rewrite length_substring_prefix; lia).
    rewrite excerptOf_long by (rewrite length_append, Hp; simpl; lia).
    rewrite <- Hp at 1. rewrite substring_append_prefix. reflexivity.
Qed.

(** ** What the client prints *)

Section Batch.

Context {A : Type}.
Implicit Types (promises : list (Promise A)) (st : AllState A) (sched : list nat).

Lemma length_omap_id (vs : list (option A)) : length (omap id vs) <= length vs.
Proof.
  induction vs as [|[x|] vs IH]; cbn; [lia | | ]; cbn in IH; lia.
Qed.

Lemma Promise_all_length promises sched xs :
  Promise_all sched promises = Fulfilled xs -> length xs <= length promises.
Proof.
  unfold Promise_all. set (n := length promises).
  set (init := mkAllState (replicate n None) n
                 (if Nat.eqb n 0 then Some (Fulfilled []) else None)).
  assert (forall st,
            (length (values st) = n
             /\ forall ys, settled st = Some (Fulfilled ys) -> length ys <= n) ->
            let st' := fold_left (settleElement promises) sched st in
            length (values st') = n
            /\ forall ys, settled st' = Some (Fulfilled ys) -> length ys <= n) as Hinv.
  { induction sched as [|i sched IH]; intros st Hst; [exact Hst|].
    simpl. apply IH. destruct Hst as [Hl Hs]. unfold settleElement.
    destruct (promises !! i) as [[x|e|]|]; simpl; auto.
    - rewrite length_insert. split; [exact Hl|]. intros ys.
      destruct (Nat.eqb (remainingElementsCount st - 1) 0); [|apply Hs].
      destruct (settled st) as [r|]; simpl; [apply Hs|].
      intros H. injection H as <-.
      etransitivity; [apply length_omap_id|]. rewrite length_insert. lia.
    - split; [exact Hl|]. intros ys.
      destruct (settled st) as [r|]; simpl; [apply Hs | discriminate]. }
  destruct (Hinv init) as [_ H].
  { split; [apply length_replicate|]. simpl. intros ys.
    destruct (Nat.eqb n 0); [|discriminate]. intros E. injection E as <-. simpl. lia. }
  cbv zeta in H.
  destruct (settled (fold_left (settleElement promises) sched init)) as [r|];
    [|discriminate].
  intros ->. apply H. reflexivity.
Qed.

(** While fewer fulfilments have happened than remain to be counted, and
    nothing was rejected, the result is pending. *)
Lemma pending_while_unfulfilled promises sched :
  forall st,
    Forall (fun i => forall e, promises !! i <> Some (Rejected e)) sched ->
    settled st = None ->
    length (filter (fun i => isFulfilled promises i = true) sched)
      < remainingElementsCount st ->
    settled (fold_left (settleElement promises) sched st) = None.
Proof.
  induction sched as [|i sched IH]; intros st Hok Hs Hlen; [exact Hs|].
  inversion Hok as [|? ? Hi Hok']; subst. cbn [fold_left].
  assert (isFulfilled promises i = true
          /\ (exists x, promises !! i = Some (Fulfilled x))
          \/ isFulfilled promises i = false
             /\ settleElement promises st i = st) as [[Hf [x Hx]]|[Hf Hst]].
  { unfold isFulfilled, settleElement.
    destruct (promises !! i) as [[x|e|]|]; eauto. exfalso. exact (Hi e eq_refl). }
  - rewrite filter_cons_True in Hlen by exact Hf. simpl in Hlen.
    apply IH; [exact Hok'| |]; unfold settleElement; rewrite Hx; simpl; [|lia].
    destruct (Nat.eqb_spec (remainingElementsCount st - 1) 0); [lia | exact Hs].
  - rewrite filter_cons_False in Hlen by congruence.
    rewrite Hst. apply IH; assumption.
Qed.

(** A promise that never settles, and no rejection: the batch never
    settles. *)
Lemma Promise_all_pending promises sched j :
  Permutation sched (seq 0 (length promises)) ->
  promises !! j = Some Pending ->
  (forall i e, promises !! i <> Some (Rejected e)) ->
  Promise_all sched promises = Pending.
Proof.
  intros Hp Hj Hno. unfold Promise_all.
  set (n := length promises).
  assert (n <> 0) as Hn by (apply lookup_lt_Some in Hj; fold n in Hj; lia).
  rewrite pending_while_unfulfilled; [reflexivity| | |].
  - apply List.Forall_forall. intros i _. apply Hno.
  - simpl. destruct (Nat.eqb_spec n 0); [contradiction | reflexivity].
  - simpl. rewrite Hp.
    eapply Nat.lt_le_trans; [apply (length_filter_lt _ _ j)|rewrite length_seq; lia].
    + apply list_elem_of_In, in_seq. apply lookup_lt_Some in Hj. fold n in Hj. lia.
    + unfold isFulfilled. rewrite Hj. discriminate.
Qed.

End Batch.

Lemma length_slice_15 (ids : list Z) : length (slice ids 0 15) <= 15.
Proof.
  rewrite slice_from_start, length_firstn.
  change (15 <? 0)%Z with false. cbv iota. lia.
Qed.

(** X12: whatever the network answers and in whatever order, [main] prints
    at most 15 items and at most one error, and never both: when there is
    an error line there is no item line. *)
Theorem main_prints_at_most_15 (fetch : Fetch) (sched : list nat) :
  length (stdout (fst (main fetch sched))) <= 15
  /\ length (stderr (fst (main fetch sched))) <= 1
  /\ (stderr (fst (main fetch sched)) <> [] -> stdout (fst (main fetch sched)) = []).
Proof.
  unfold main. destruct (fetchTopStories fetch sched 15) as [stories|e|] eqn:E; simpl;
    try (repeat split; lia).
  split; [|split; [lia | congruence]].
  rewrite length_map. unfold fetchTopStories in E.
  destruct (fetch topStoriesUrl) as [res|?|]; cbn [mbind Promise_bind] in E;
    try discriminate.
  destruct (json res) as [body|?|]; cbn [mbind Promise_bind] in E; try discriminate.
  destruct (decodeToPromise _ _ body) as [ids|?|]; cbn [mbind Promise_bind] in E;
    try discriminate.
  apply Promise_all_length in E. rewrite length_map in E.
  pose proof (length_slice_15 ids). lia.
Qed.

(** X13: when the list of IDs is decoded and the request of each of its
    first 15 IDs is fulfilled, [main] prints, in the order of the IDs and
    whatever the order of the settlements, the line of each item followed
    by a newline, prints no error, and the process ends with code 0. *)
Theorem main_prints_the_items (fetch : Fetch) (sched : list nat) (res : Response)
    (body : JsValue) (ids : list Z) (items : list Item) :
  fetch topStoriesUrl = Fulfilled res ->
  json res = Fulfilled body ->
  decodeToPromise (t.array ID_V) (asArray asNumber) body = Fulfilled ids ->
  Permutation sched (seq 0 (length (slice ids 0 15))) ->
  Forall2 (fun id item => fetchItem fetch id = Fulfilled item) (slice ids 0 15) items ->
  main fetch sched
  = (mkConsole (map (fun item => formatItem item +:+ newline) items) [], Fulfilled tt)
  /\ exitCode fetch sched = Some 0%Z.
Proof.
  intros Hf Hj Hd Hp H2.
  assert (fetchTopStories fetch sched 15 = Fulfilled items) as E.
  { rewrite (fetchTopStories_ids _ _ _ _ _ _ Hf Hj Hd).
    apply batch_fulfilled; assumption. }
  unfold exitCode, main. rewrite E. split; reflexivity.
Qed.

Lemma main_prints_the_items_witness :
  exists items,
    main exampleNetwork [1; 0]
    = (mkConsole (map (fun item => formatItem item +:+ newline) items) [], Fulfilled tt)
    /\ length items = 2.
Proof.
  destruct (asItem exampleStory) as [story|] eqn:Es; [|discriminate Es].
  destruct (asItem exampleComment) as [comment|] eqn:Ec; [|discriminate Ec].
  exists [story; comment]. split; [|reflexivity].
  vm_compute in Es. injection Es as <-. vm_compute in Ec. injection Ec as <-.
  apply (main_prints_the_items exampleNetwork [1; 0]
           (mkResponse (Fulfilled (JArray [JNumber 1; JNumber 2])))
           (JArray [JNumber 1; JNumber 2]) [1%Z; 2%Z]); try reflexivity.
  - apply perm_swap.
  - repeat constructor.
Defined.

(** X14: there is no timeout: when the request of one of the first 15 IDs
    never settles and none is rejected, [main] prints nothing and its
    promise stays pending, however many of the other requests are
    fulfilled. *)
Theorem main_waits_for_every_item (fetch : Fetch) (sched : list nat) (res : Response)
    (body : JsValue) (ids : list Z) (id : Z) :
  fetch topStoriesUrl = Fulfilled res ->
  json res = Fulfilled body ->
  decodeToPromise (t.array ID_V) (asArray asNumber) body = Fulfilled ids ->
  Permutation sched (seq 0 (length (slice ids 0 15))) ->
  In id (slice ids 0 15) ->
  fetchItem fetch id = Pending ->
  (forall id' e, In id' (slice ids 0 15) -> fetchItem fetch id' <> Rejected e) ->
  main fetch sched = (mkConsole [] [], Pending).
Proof.
  intros Hf Hj Hd Hp Hin Hpend Hno.
  assert (fetchTopStories fetch sched 15 = Pending) as E.
  { rewrite (fetchTopStories_ids _ _ _ _ _ _ Hf Hj Hd).
    set (selected := slice ids 0 15) in *.
    apply list_elem_of_In, list_elem_of_lookup in Hin. destruct Hin as [j Hj'].
    apply (Promise_all_pending _ sched j).
    - rewrite length_map. exact Hp.
    - change (map (fun id => fetchItem fetch id) selected)
        with ((fun id => fetchItem fetch id) <$> selected).
      rewrite list_lookup_fmap, Hj'. simpl. rewrite Hpend. reflexivity.
    - intros i e Hi.
      change (map (fun id => fetchItem fetch id) selected)
        with ((fun id => fetchItem fetch id) <$> selected) in Hi.
      rewrite list_lookup_fmap in Hi.
      destruct (selected !! i) as [id'|] eqn:Ei; [|discriminate].
      simpl in Hi. injection Hi as Hi. apply (Hno id' e); [|exact Hi].
      apply list_elem_of_In, list_elem_of_lookup. eauto. }
  unfold main. rewrite E. reflexivity.
Qed.

Lemma main_waits_for_every_item_witness :
  main stalledNetwork [0; 1] = (mkConsole [] [], Pending).
Proof.
  apply (main_waits_for_every_item stalledNetwork [0; 1]
           (mkResponse (Fulfilled (JArray [JNumber 1; JNumber 2])))
           (JArray [JNumber 1; JNumber 2]) [1%Z; 2%Z] 2
           eq_refl eq_refl eq_refl (Permutation_refl _)).
  - simpl. tauto.
  - reflexivity.
  - intros id' e [<-|[<-|[]]]; discriminate.
Defined.

(** ** Answers that are not of the expected JSON type *)

(** X15: when the answer to the request of the list is JSON but not an
    array, [main] prints one error line, which names the expected type of
    the list and the JSON received, and nothing else. *)
Theorem main_reports_a_list_that_is_no_array (fetch : Fetch) (sched : list nat)
    (res : Response) (body : JsValue) :
  fetch topStoriesUrl = Fulfilled res ->
  json res = Fulfilled body ->
  (forall xs, body <> JArray xs) ->
  main fetch sched
  = (mkConsole []
       ["Expecting Array<number> but instead got: " +:+ Reporter.jsToString body +:+ "."],
     Fulfilled tt).
Proof.
  intros Hf Hj Hb.
  assert (fetchTopStories fetch sched 15
          = Rejected (mkError ("Expecting Array<number> but instead got: "
                               +:+ Reporter.jsToString body +:+ "."))) as E.
  { unfold fetchTopStories. rewrite Hf. cbn [mbind Promise_bind]. rewrite Hj.
    cbn [mbind Promise_bind].
    destruct body; try reflexivity. exfalso. exact (Hb xs eq_refl). }
  unfold main. rewrite E. reflexivity.
Qed.

Lemma main_reports_a_list_that_is_no_array_witness :
  main nullNetwork []
  = (mkConsole [] ["Expecting Array<number> but instead got: null."], Fulfilled tt).
Proof.
  apply (main_reports_a_list_that_is_no_array nullNetwork []
           (mkResponse (Fulfilled JNull)) JNull eq_refl eq_refl).
  discriminate.
Defined.



(** ** The address of an item *)







(** ** The order of the properties of an object *)

Lemma lookupProp_Permutation d d' :
  List.NoDup (map fst d) -> Permutation d d' ->
  forall k, lookupProp d k = lookupProp d' k.
Proof.
  intros Hnd Hp. induction Hp as [|[k0 v0] l l' Hp IH|[k1 v1] [k2 v2] l|l l' l'' Hp1 IH1 Hp2 IH2];
    intros k.
  - reflexivity.
  - simpl. inversion Hnd; subst. rewrite IH by assumption. reflexivity.
  - simpl. simpl in Hnd. inversion Hnd as [|? ? Hnin _]; subst.
    destruct (String.eqb_spec k k1) as [E1|]; destruct (String.eqb_spec k k2) as [E2|];
      try reflexivity.
    exfalso. apply Hnin. left. simpl. congruence.
  - rewrite IH1 by assumption. apply IH2.
    eapply Permutation_NoDup; [|exact Hnd]. apply Permutation_map. exact Hp1.
Qed.

Lemma is_ItemTagV_true x :
  t.is_ ItemTagV x = true -> exists tag, x = JString tag /\ In tag ItemTags.
Proof.
  destruct x as [ | | | |tag| | ]; try discriminate.
  unfold ItemTagV. cbn [t.is_ t.keyof t.guarded]. intros H. exists tag.
  split; [reflexivity|]. apply existsb_exists in H. destruct H as (k & Hk & E).
  apply String.eqb_eq in E. subst. exact Hk.
Qed.

Lemma asItem_ext d d' :
  (forall k, lookupProp d k = lookupProp d' k) ->
  asItem (JObject d) = asItem (JObject d').
Proof.
  intros H. unfold asItem, asComment, asJob, asPoll, asPollOpt, asStory, asItemCommon,
    asTopLevel, getProp. rewrite !H. reflexivity.
Qed.

Lemma decodeToPromise_ext d d' :
  (forall k, lookupProp d k = lookupProp d' k) ->
  decodeToPromise ItemV asItem (JObject d) = decodeToPromise ItemV asItem (JObject d').
Proof.
  intros H. unfold decodeToPromise, t.decode.
  set (root := t.getDefaultContext ItemV).
  destruct (t.is_ ItemTagV (lookupProp d "type")) eqn:Etag.
  - apply is_ItemTagV_true in Etag. destruct Etag as (tag & Htag & Hin).
    destruct (validate_ItemV_variant d tag root Htag Hin) as (i & variant & Hidx & ->).
    rewrite H in Htag.
    destruct (validate_ItemV_variant d' tag root Htag Hin) as (i' & variant' & Hidx' & ->).
    rewrite Hidx in Hidx'. injection Hidx' as <- <-.
    replace (flat_map (propErrors d' _) (declaredProps tag))
      with (flat_map (propErrors d (t.appendContext root (natToString i) variant))
              (declaredProps tag)).
    + destruct (flat_map _ (declaredProps tag)); [|reflexivity].
      rewrite (asItem_ext d d' H). reflexivity.
    + apply flat_map_ext. intros p. unfold propErrors. rewrite H. reflexivity.
  - unfold ItemV, ItemTagV, ItemTags in *.
    rewrite (validate_taggedUnion_tag _ _ _ d root Etag).
    rewrite H in Etag. rewrite (validate_taggedUnion_tag _ _ _ d' root Etag).
    rewrite H. reflexivity.
Qed.

(** X18: the decoder looks at an object only through its properties: two
    objects with the same properties in a different order are decoded to
    the same promise, the same item or the same report. *)
Theorem decoding_ignores_the_order_of_keys (d d' : list (string * JsValue)) :
  List.NoDup (map fst d) ->
  Permutation d d' ->
  decodeToPromise ItemV asItem (JObject d') = decodeToPromise ItemV asItem (JObject d).
Proof.
  intros Hnd Hp. symmetry. apply decodeToPromise_ext, lookupProp_Permutation; assumption.
Qed.

Lemma decoding_ignores_the_order_of_keys_witness :
  decodeToPromise ItemV asItem (JObject (rev exampleStoryProps))
  = decodeToPromise ItemV asItem (JObject exampleStoryProps).
Proof.
  apply (decoding_ignores_the_order_of_keys exampleStoryProps (rev exampleStoryProps)).
  - simpl. repeat (constructor; [simpl; intuition discriminate|]). constructor.
  - apply Permutation_rev.
Defined.
